(** * Reacjilator for Azure Functions: the HTTP trigger (HttpTrigger/index.js)

    A shallow embedding of the webhook handler and of the
    reaction-to-translation pipeline it drives:
    [module_exports] (the exported handler), [events], [getMessage],
    [postTranslatedMessage], [isAlreadyPosted] and [postMessage].

    The handler is effectful: it logs, sleeps, and talks to two remote
    services.  Every function of the source that has effects is embedded
    in a small trace-and-error monad: a computation yields the ordered
    list of the effects it performed together with either the thrown
    error or the returned value.  What the outside world answers (the
    signature check, the language table, the remote replies, the random
    draw) is collected in a record [Env].

    Three stretches of the source that have no name there are given one,
    so that statements can speak of them: [resolve] (from the reaction to
    the language, in [events]), [fetch_and_post] (what [events] does after
    the delay) and [translate_first] (the request and the reading of its
    reply, in [postTranslatedMessage]).

    The language table and the signature check live in modules of their
    own ([./langcode], [./verifySignature]); they are parameters here.
    The table is given by the finite map of its own entries; what an
    object inherits from [Object.prototype] is part of the lookup
    ([langcode_get]). *)

From Stdlib Require Import String Ascii ZArith QArith List Lia Permutation.
From stdpp Require Import base strings list gmap.
Import ListNotations.

Local Open Scope string_scope.
Local Open Scope list_scope.

(** ** JavaScript values

    Request bodies and service replies are parsed JSON.  [JUndef] is the
    value of a missing property.  Numbers are the integral ones. *)

#[local] Set Warnings "-register-all".

Inductive jsval : Type :=
| JUndef
| JNull
| JBool (b : bool)
| JNum (n : Z)
| JStr (s : string)
| JArr (xs : list jsval)
| JObj (props : list (string * jsval)).

(** What a [throw] or a rejected promise carries. *)
Inductive error : Type :=
| TypeError
| Rejected (reason : jsval).

(** Pure computations that may throw. *)
Definition R (A : Type) : Type := (error + A)%type.

Definition rbind {A B} (r : R A) (k : A -> R B) : R B :=
  match r with
  | inl e => inl e
  | inr a => k a
  end.

Notation "x <-? r ;; k" := (rbind r (fun x => k))
  (at level 100, r at next level, right associativity).

(** ToBoolean. *)
Definition truthy (v : jsval) : bool :=
  match v with
  | JUndef | JNull => false
  | JBool b => b
  | JNum n => negb (n =? 0)%Z
  | JStr s => negb (String.eqb s "")
  | JArr _ | JObj _ => true
  end.

(** Own property of an object literal. *)
Fixpoint assoc (p : string) (props : list (string * jsval)) : jsval :=
  match props with
  | [] => JUndef
  | (k, v) :: rest => if String.eqb p k then v else assoc p rest
  end.

(** [v.p] for the property names the source reads (none of them is a
    property of a string, an array, a number or a boolean). *)
Definition get_prop (v : jsval) (p : string) : R jsval :=
  match v with
  | JUndef | JNull => inl TypeError
  | JObj props => inr (assoc p props)
  | JBool _ | JNum _ | JStr _ | JArr _ => inr JUndef
  end.

(** [v[0]]. *)
Definition get_index0 (v : jsval) : R jsval :=
  match v with
  | JUndef | JNull => inl TypeError
  | JArr xs => inr (hd JUndef xs)
  | JStr s =>
      match s with
      | EmptyString => inr JUndef
      | String c _ => inr (JStr (String c EmptyString))
      end
  | JObj props => inr (assoc "0" props)
  | JBool _ | JNum _ => inr JUndef
  end.

(** [const [x] = v]: the first element an iterable yields. *)
Definition destructure_first (v : jsval) : R jsval :=
  match v with
  | JArr xs => inr (hd JUndef xs)
  | JStr s =>
      match s with
      | EmptyString => inr JUndef
      | String c _ => inr (JStr (String c EmptyString))
      end
  | JUndef | JNull | JBool _ | JNum _ | JObj _ => inl TypeError
  end.

(** [a === b].  Arrays and objects compare by identity; the two sides
    the source compares come from two different service replies, so
    they are never the same object. *)
Definition strict_eq (a b : jsval) : bool :=
  match a, b with
  | JUndef, JUndef => true
  | JNull, JNull => true
  | JBool x, JBool y => Bool.eqb x y
  | JNum x, JNum y => (x =? y)%Z
  | JStr x, JStr y => String.eqb x y
  | _, _ => false
  end.

(** [v === 'literal']. *)
Definition is_str (v : jsval) (lit : string) : bool := strict_eq v (JStr lit).

(** ** The two regular expressions of [events] *)

(** [\w] *)
Definition is_word (c : ascii) : bool :=
  let n := nat_of_ascii c in
  ((48 <=? n)%nat && (n <=? 57)%nat) || ((65 <=? n)%nat && (n <=? 90)%nat)
  || ((97 <=? n)%nat && (n <=? 122)%nat) || (n =? 95)%nat.

(** [reaction.match(/flag-/)]: the literal occurs somewhere. *)
Fixpoint match_flag (s : string) : bool :=
  String.prefix "flag-" s
  || match s with
     | EmptyString => false
     | String _ rest => match_flag rest
     end.

(** The lookahead [flag-\b] at the head of [s]: the five characters,
    then a word boundary, which after [-] means a word character. *)
Definition lookahead_flag (s : string) : bool :=
  String.prefix "flag-" s
  && match String.get 5 s with
     | Some c => is_word c
     | None => false
     end.

(** [\w+], greedy. *)
Fixpoint take_word (s : string) : string :=
  match s with
  | EmptyString => EmptyString
  | String c rest => if is_word c then String c (take_word rest) else EmptyString
  end.

(** [reaction.match(/(?!flag-\b)\b\w+/)]: the leftmost position where the
    lookahead fails, a word boundary holds and a word starts;
    [prev_word] tells whether the character before is a word character. *)
Fixpoint match_token (prev_word : bool) (s : string) : option string :=
  match s with
  | EmptyString => None
  | String c rest =>
      if negb (lookahead_flag s) && negb prev_word && is_word c
      then Some (take_word s)
      else match_token (is_word c) rest
  end.

(** Some character of [s] is a word character. *)
Fixpoint has_word (s : string) : bool :=
  match s with
  | EmptyString => false
  | String c rest => is_word c || has_word rest
  end.

(** Some word starts in [s], the character before [s] being a word
    character or not according to [prev_word]. *)
Fixpoint has_word_start (prev_word : bool) (s : string) : bool :=
  match s with
  | EmptyString => false
  | String c rest => (negb prev_word && is_word c) || has_word_start (is_word c) rest
  end.

(** Every character of [s] is a word character. *)
Fixpoint all_word (s : string) : bool :=
  match s with
  | EmptyString => true
  | String c rest => is_word c && all_word rest
  end.

(** ** The language table

    [./langcode] exports an object that is used as a table: its own keys
    are country codes and its values language codes.  Reading
    [langcode[key]] finds an own entry or, for a key the table does not
    have, a property the object inherits from [Object.prototype]. *)

(** What [langcode[key]] can evaluate to, [undefined] apart. *)
Inductive lang_value : Type :=
| LangCode (code : string)
| Inherited (name : string).

(** The property names of [Object.prototype]. *)
Definition object_prototype_names : list string :=
  ["constructor"; "__defineGetter__"; "__defineSetter__"; "hasOwnProperty";
   "__lookupGetter__"; "__lookupSetter__"; "isPrototypeOf";
   "propertyIsEnumerable"; "toString"; "valueOf"; "__proto__"; "toLocaleString"].

Definition is_inherited (key : string) : bool :=
  existsb (String.eqb key) object_prototype_names.

(** [langcode[key]]; [None] is [undefined]. *)
Definition langcode_get (table : gmap string string) (key : string) : option lang_value :=
  match table !! key with
  | Some code => Some (LangCode code)
  | None => if is_inherited key then Some (Inherited key) else None
  end.

(** ToBoolean of such a value: the inherited ones are functions, or
    [Object.prototype] itself. *)
Definition lang_truthy (lang : lang_value) : bool :=
  match lang with
  | LangCode code => negb (String.eqb code "")
  | Inherited _ => true
  end.

(** The text a template literal gives for such a value. *)
Definition lang_text (lang : lang_value) : string :=
  match lang with
  | LangCode code => code
  | Inherited name =>
      if String.eqb name "__proto__" then "[object Object]"
      else "function "
           ++ (if String.eqb name "constructor" then "Object" else name)
           ++ "() { [native code] }"
  end.

(** ** Effects *)

(** Arguments of the two chat-platform calls and of the translation call. *)
Record FetchArgs := {
  f_token : jsval;
  f_channel : jsval;
  f_ts : jsval;
  f_limit : Z;
  f_inclusive : bool
}.

Record TranslateRequest := {
  parent : jsval;
  contents : list jsval;
  mimeType : string;
  targetLanguageCode : lang_value
}.

Record PostArgs := {
  p_token : jsval;
  p_channel : jsval;
  p_attachments : string;
  p_as_user : bool;
  p_username : string;
  p_thread_ts : jsval
}.

Record Request := {
  body : jsval;
  headers : jsval
}.

(** [context.res] *)
Record Response := {
  status : option Z;
  res_body : jsval
}.

(** The calls of [context.log], one constructor per call site, with the
    value that is written.  [LogDelay] stands for the line that reports
    the elapsed time, which is read off the clock and not modelled. *)
Inductive log_entry : Type :=
| LogProcessed
| LogRequest (req : Request)
| LogItem (item : jsval)
| LogReacji
| LogDelay
| LogMessages (messages : jsval)
| LogTransResponse (response : jsval)
| LogData (data : jsval)
| LogErr (e : error).

Inductive event : Type :=
| ELog (l : log_entry)
| ESleep (msec : Q)
| EFetch (args : FetchArgs)
| ETranslate (req : TranslateRequest)
| EPost (args : PostArgs).

(** What the world outside the handler provides. *)
Record Env := {
  isVerified : Request -> bool;
  langcode : gmap string string;
  SLACK_ACCESS_TOKEN : jsval;
  GOOGLE_PROJECT_ID : jsval;
  GOOGLE_LOCATION : jsval;
  random : Q;
  JSON_stringify : jsval -> string;
  locationPath : jsval -> jsval -> R jsval;
  conversations_replies : FetchArgs -> R jsval;
  translateText : TranslateRequest -> R jsval;
  chat_postMessage : PostArgs -> R jsval
}.

(** ** The trace-and-error monad *)

Definition M (A : Type) : Type := (list event * R A)%type.

Definition trace {A} (m : M A) : list event := fst m.
Definition outcome {A} (m : M A) : R A := snd m.

Definition ret {A} (a : A) : M A := ([], inr a).
Definition lift {A} (r : R A) : M A := ([], r).
Definition emit (e : event) : M unit := ([e], inr tt).

Definition bind {A B} (m : M A) (k : A -> M B) : M B :=
  match m with
  | (t, inl e) => (t, inl e)
  | (t, inr a) => let '(t', r) := k a in (t ++ t', r)
  end.

(** [try { m } catch (e) { h e }] *)
Definition try_catch {A} (m : M A) (h : error -> M A) : M A :=
  match m with
  | (t, inl e) => let '(t', r) := h e in (t ++ t', r)
  | (t, inr a) => (t, inr a)
  end.

Notation "x <- m ;; k" := (bind m (fun x => k))
  (at level 100, m at next level, right associativity).
Notation "m ;;; k" := (bind m (fun _ => k))
  (at level 100, right associativity).

Definition log (l : log_entry) : M unit := emit (ELog l).

(** ** The program *)

Section Program.

Variable E : Env.

(** [axios.post(`${apiUrl}/conversations.replies`, qs.stringify(args))] *)
Definition axios_post_replies (args : FetchArgs) : M jsval :=
  emit (EFetch args) ;;; lift (conversations_replies E args).

(** [axios.post(`${apiUrl}/chat.postMessage`, qs.stringify(args))] *)
Definition axios_post_message (args : PostArgs) : M jsval :=
  emit (EPost args) ;;; lift (chat_postMessage E args).

(** [translationClient.translateText(request)] *)
Definition translationClient_translateText (request : TranslateRequest) : M jsval :=
  emit (ETranslate request) ;;; lift (translateText E request).

(** [sleep(msec)] *)
Definition sleep (msec : Q) : M unit := emit (ESleep msec).

Definition getMessage (channel ts : jsval) : M jsval :=
  let args := {| f_token := SLACK_ACCESS_TOKEN E;
                 f_channel := channel;
                 f_ts := ts;
                 f_limit := 1;
                 f_inclusive := true |} in
  result <- axios_post_replies args ;;
  try_catch
    (data <- lift (get_prop result "data") ;;
     lift (get_prop data "messages"))
    (fun e => log (LogErr e) ;;; ret JUndef).

(** One call of the callback given to [messages.forEach]; the state is
    the variable [alreadyPosted]. *)
Definition check_message (translation : jsval) (alreadyPosted : bool)
    (messageInTheThread : jsval) : R bool :=
  if negb alreadyPosted then
    subtype <-? get_prop messageInTheThread "subtype" ;;
    if truthy subtype then
      attachments <-? get_prop messageInTheThread "attachments" ;;
      first <-? get_index0 attachments ;;
      text <-? get_prop first "text" ;;
      if strict_eq text translation then inr true else inr alreadyPosted
    else inr alreadyPosted
  else inr alreadyPosted.

(** [xs.forEach(f)] with the captured variable threaded as state. *)
Fixpoint forEach {S : Type} (f : S -> jsval -> R S) (s : S) (xs : list jsval) : R S :=
  match xs with
  | [] => inr s
  | x :: rest => s' <-? f s x ;; forEach f s' rest
  end.

Definition isAlreadyPosted (messages translation : jsval) : R jsval :=
  match messages with
  | JArr ms =>
      alreadyPosted <-? forEach (check_message translation) false ms ;;
      if alreadyPosted then inr (JBool true) else inr JUndef
  | _ => inl TypeError
  end.

(** The two attachment shapes of [postMessage]. *)
Definition translated_attachment (emoji : string) (lang : lang_value)
    (translation text : jsval) : jsval :=
  JObj [("pretext", JStr ("_The message is translated in_ :" ++ emoji ++ ": _("
                          ++ lang_text lang ++ ")_"));
        ("text", translation);
        ("footer", text);
        ("mrkdwn_in", JArr [JStr "text"; JStr "pretext"])].

Definition unsupported_attachment : jsval :=
  JObj [("pretext", JStr "_Sorry, the language is not supported!_ :persevere:");
        ("mrkdwn_in", JArr [JStr "text"; JStr "pretext"])].

Definition postMessage (message translation : jsval) (lang : lang_value)
    (channel : jsval) (emoji : string) : M unit :=
  thread_ts <- lift (get_prop message "thread_ts") ;;
  ts <- (if truthy thread_ts then lift (get_prop message "thread_ts")
         else lift (get_prop message "ts")) ;;
  text <- lift (get_prop message "text") ;;
  let attachments :=
    if truthy text then JArr [translated_attachment emoji lang translation text]
    else JArr [unsupported_attachment] in
  let args := {| p_token := SLACK_ACCESS_TOKEN E;
                 p_channel := channel;
                 p_attachments := JSON_stringify E attachments;
                 p_as_user := false;
                 p_username := "Reacjilator Bot";
                 p_thread_ts := ts |} in
  result <- axios_post_message args ;;
  try_catch
    (data <- lift (get_prop result "data") ;; log (LogData data))
    (fun e => log (LogErr e)).

(** Lines 148-159 of [postTranslatedMessage]: the request, the call
    of the translation client and the text taken from its reply. *)
Definition translate_first (message : jsval) (lang : lang_value) : M jsval :=
  path <- lift (locationPath E (GOOGLE_PROJECT_ID E) (GOOGLE_LOCATION E)) ;;
  text <- lift (get_prop message "text") ;;
  let request := {| parent := path;
                    contents := [text];
                    mimeType := "text/plain";
                    targetLanguageCode := lang |} in
  reply <- translationClient_translateText request ;;
  response <- lift (destructure_first reply) ;;
  log (LogTransResponse response) ;;;
  translations <- lift (get_prop response "translations") ;;
  first <- lift (get_index0 translations) ;;
  lift (get_prop first "translatedText").

Definition postTranslatedMessage (messages : jsval) (lang : lang_value)
    (channel : jsval) (emoji : string) : M unit :=
  message <- lift (get_index0 messages) ;;
  try_catch
    (translation <- translate_first message lang ;;
     posted <- lift (isAlreadyPosted messages translation) ;;
     if truthy posted then ret tt
     else postMessage message translation lang channel emoji)
    (fun err => log (LogErr err)).

(** Lines 87-104 of [events]: from the reaction to the language.
    [inr None] is one of the early [return]s.  Only the branch without
    [flag-] asks whether the name is a key of the table. *)
Definition resolve (reaction : jsval) : R (option lang_value) :=
  match reaction with
  | JStr r =>
      country <-?
        (if match_flag r then
           match match_token false r with
           | Some token => inr (Some token)
           | None => inl TypeError
           end
         else if bool_decide (r ∈ dom (langcode E)) then inr (Some r)
         else inr None) ;;
      match country with
      | None => inr None
      | Some c =>
          match langcode_get (langcode E) c with
          | Some lang => if lang_truthy lang then inr (Some lang) else inr None
          | None => inr None
          end
      end
  | _ => inl TypeError
  end.

(** Lines 111-114 of [events]: what follows the delay. *)
Definition fetch_and_post (item : jsval) (lang : lang_value) (emoji : string) : M jsval :=
  channel <- lift (get_prop item "channel") ;;
  ts <- lift (get_prop item "ts") ;;
  messages <- getMessage channel ts ;;
  log (LogMessages messages) ;;;
  postTranslatedMessage messages lang channel emoji ;;;
  ret JUndef.

Definition events (req : Request) : M jsval :=
  ev <- lift (get_prop (body req) "event") ;;
  type <- lift (get_prop ev "type") ;;
  user <- lift (get_prop ev "user") ;;
  reaction <- lift (get_prop ev "reaction") ;;
  item <- lift (get_prop ev "item") ;;
  log (LogItem item) ;;;
  if is_str type "reaction_added" then
    log LogReacji ;;;
    item_type <- lift (get_prop item "type") ;;
    if negb (is_str item_type "message") then ret JUndef
    else
      resolved <- lift (resolve reaction) ;;
      match resolved, reaction with
      | Some lang, JStr emoji =>
          sleep (random E * 5000)%Q ;;;
          log LogDelay ;;;
          fetch_and_post item lang emoji
      | _, _ => ret JUndef
      end
  else ret JUndef.

Definition bad_request : Response :=
  {| status := Some 404%Z; res_body := JStr "bad request" |}.

(** [module.exports]: the value is [context.res] when the handler
    returns. *)
Definition module_exports (req : Request) : M Response :=
  log LogProcessed ;;;
  log (LogRequest req) ;;;
  type <- lift (get_prop (body req) "type") ;;
  if is_str type "url_verification" then
    challenge <- lift (get_prop (body req) "challenge") ;;
    ret {| status := None; res_body := JObj [("challenge", challenge)] |}
  else if is_str type "event_callback" then
    if negb (isVerified E req) then ret bad_request
    else
      result <- events req ;;
      ret {| status := None; res_body := result |}
  else ret bad_request.

End Program.

(** ** Observing traces *)

Definition is_sleep (e : event) : bool :=
  match e with ESleep _ => true | _ => false end.
Definition is_fetch (e : event) : bool :=
  match e with EFetch _ => true | _ => false end.
Definition is_translate (e : event) : bool :=
  match e with ETranslate _ => true | _ => false end.
Definition is_post (e : event) : bool :=
  match e with EPost _ => true | _ => false end.
Definition is_network (e : event) : bool :=
  is_fetch e || is_translate e || is_post e.
Definition is_error_log (e : event) : bool :=
  match e with ELog (LogErr _) => true | _ => false end.

(** Number of events of a kind in a trace. *)
Fixpoint count (p : event -> bool) (t : list event) : nat :=
  match t with
  | [] => 0
  | e :: rest => (if p e then 1 else 0) + count p rest
  end.

(** An event that is neither the delay nor a remote call. *)
Definition quiet (e : event) : Prop := is_sleep e = false /\ is_network e = false.

(** The request [translate_first] sends. *)
Definition request_for (path text : jsval) (lang : lang_value) : TranslateRequest :=
  {| parent := path; contents := [text]; mimeType := "text/plain";
     targetLanguageCode := lang |}.

(** The arguments [postMessage] posts. *)
Definition post_args (E : Env) (thread_ts ts text translation : jsval)
    (lang : lang_value) (channel : jsval) (emoji : string) : PostArgs :=
  {| p_token := SLACK_ACCESS_TOKEN E;
     p_channel := channel;
     p_attachments :=
       JSON_stringify E
         (if truthy text then JArr [translated_attachment emoji lang translation text]
          else JArr [unsupported_attachment]);
     p_as_user := false;
     p_username := "Reacjilator Bot";
     p_thread_ts := if truthy thread_ts then thread_ts else ts |}.

(** The text taken from the reply of the translation client. *)
Definition translation_of (response : jsval) : R jsval :=
  translations <-? get_prop response "translations" ;;
  first <-? get_index0 translations ;;
  get_prop first "translatedText".

(** A message of the thread that [isAlreadyPosted] takes for an earlier
    post of the translation: it has a subtype, and the text of its first
    attachment is the translation. *)
Definition prior_post (translation m : jsval) : Prop :=
  exists subtype attachments first text,
    get_prop m "subtype" = inr subtype /\ truthy subtype = true /\
    get_prop m "attachments" = inr attachments /\
    get_index0 attachments = inr first /\
    get_prop first "text" = inr text /\
    strict_eq text translation = true.

(** A message on which the callback of [isAlreadyPosted] does not throw. *)
Definition scannable (translation m : jsval) : Prop :=
  exists b, check_message translation false m = inr b.

(** A message on which line 171 can be evaluated: its [subtype] can be
    read and, when that is truthy, so can [attachments[0].text]. *)
Definition checkable (m : jsval) : Prop :=
  exists subtype,
    get_prop m "subtype" = inr subtype /\
    (truthy subtype = true ->
     exists attachments first text,
       get_prop m "attachments" = inr attachments /\
       get_index0 attachments = inr first /\
       get_prop first "text" = inr text).

(** The delay and the remote calls of a trace, in order. *)
Inductive call_kind : Type := KSleep | KFetch | KTranslate | KPost.

Fixpoint calls (t : list event) : list call_kind :=
  match t with
  | [] => []
  | ELog _ :: rest => calls rest
  | ESleep _ :: rest => KSleep :: calls rest
  | EFetch _ :: rest => KFetch :: calls rest
  | ETranslate _ :: rest => KTranslate :: calls rest
  | EPost _ :: rest => KPost :: calls rest
  end.

(** The callback of [isAlreadyPosted] sets the flag on [m]. *)
Definition sets_flag (translation m : jsval) : bool :=
  match check_message translation false m with
  | inr true => true
  | _ => false
  end.

(** An error in which a run of the handler can end. *)
Definition escapes (E : Env) (e : error) : Prop :=
  e = TypeError \/ exists args, conversations_replies E args = inl e.

(** ** A sample world, for the concrete runs *)

Module Sample.

Definition hello : jsval := JObj [("text", JStr "Hello"); ("ts", JStr "100.1")].

Definition table : gmap string string := <["jp" := "ja"]> (<["fr" := "fr"]> ∅).

Definition translated (t : string) : jsval :=
  JArr [JObj [("translations", JArr [JObj [("translatedText", JStr t)]])]].

Definition replies (messages : jsval) : jsval :=
  JObj [("data", JObj [("ok", JBool true); ("messages", messages)])].

Definition world (fetched translation : R jsval) : Env :=
  {| isVerified := fun _ => true;
     langcode := table;
     SLACK_ACCESS_TOKEN := JStr "xoxb-token";
     GOOGLE_PROJECT_ID := JStr "project";
     GOOGLE_LOCATION := JStr "global";
     random := (1 # 2)%Q;
     JSON_stringify := fun _ => "json";
     locationPath := fun _ _ => inr (JStr "projects/project/locations/global");
     conversations_replies := fun _ => fetched;
     translateText := fun _ => translation;
     chat_postMessage := fun _ => inr (JObj [("data", JObj [("ok", JBool true)])]) |}.

Definition reaction_event (type reaction item_type : string) : jsval :=
  JObj [("type", JStr type); ("user", JStr "U1"); ("reaction", JStr reaction);
        ("item", JObj [("type", JStr item_type); ("channel", JStr "C1");
                       ("ts", JStr "100.1")])].

Definition bot_reply (t : string) : jsval :=
  JObj [("subtype", JStr "bot_message"); ("ts", JStr "100.3");
        ("thread_ts", JStr "100.1");
        ("attachments", JArr [JObj [("text", JStr t)]])].

Definition bare_bot_message : jsval :=
  JObj [("subtype", JStr "bot_message"); ("text", JStr "hi"); ("ts", JStr "100.2");
        ("thread_ts", JStr "100.1")].

Definition callback (reaction : string) : Request :=
  {| body := JObj [("type", JStr "event_callback");
                   ("event", reaction_event "reaction_added" reaction "message")];
     headers := JUndef |}.

End Sample.

(** ** Laws of the monad *)

Section MonadLaws.

Context {A B : Type}.

Lemma bind_lift (r : R A) (k : A -> M B) :
  bind (lift r) k = match r with inl e => ([], inl e) | inr a => k a end.
Proof. destruct r as [e | a]; simpl; [reflexivity |]. destruct (k a); reflexivity. Qed.

Lemma bind_ret (a : A) (k : A -> M B) : bind (ret a) k = k a.
Proof. unfold ret, bind. destruct (k a); reflexivity. Qed.

Lemma bind_emit (e : event) (k : unit -> M B) :
  bind (emit e) k = (e :: trace (k tt), outcome (k tt)).
Proof. unfold emit, bind. destruct (k tt); reflexivity. Qed.

Lemma bind_throws (m : M A) (k : A -> M B) (e : error) :
  outcome m = inl e -> bind m k = (trace m, inl e).
Proof. destruct m as [t r]; simpl; intros ->; reflexivity. Qed.

Lemma bind_returns (m : M A) (k : A -> M B) (a : A) :
  outcome m = inr a -> bind m k = (trace m ++ trace (k a), outcome (k a)).
Proof. destruct m as [t r]; simpl; intros ->. destruct (k a); reflexivity. Qed.

Lemma try_catch_throws (m : M A) (h : error -> M A) (e : error) :
  outcome m = inl e -> try_catch m h = (trace m ++ trace (h e), outcome (h e)).
Proof. destruct m as [t r]; simpl; intros ->. destruct (h e); reflexivity. Qed.

Lemma try_catch_returns (m : M A) (h : error -> M A) (a : A) :
  outcome m = inr a -> try_catch m h = (trace m, inr a).
Proof. destruct m as [t r]; simpl; intros ->; reflexivity. Qed.

Lemma bind_call (e : event) (r : R A) (k : A -> M B) :
  bind (bind (emit e) (fun _ => lift r)) k
  = match r with
    | inl err => ([e], inl err)
    | inr a => (e :: trace (k a), outcome (k a))
    end.
Proof. destruct r as [err | a]; cbn; [reflexivity |]. destruct (k a); reflexivity. Qed.

End MonadLaws.

Lemma count_app (p : event -> bool) (t1 t2 : list event) :
  count p (t1 ++ t2) = count p t1 + count p t2.
Proof. induction t1 as [| e t1 IH]; simpl; [reflexivity | rewrite IH; lia]. Qed.

Lemma count_zero_Forall (p : event -> bool) (t : list event) :
  count p t = 0 <-> Forall (fun e => p e = false) t.
Proof.
  induction t as [| e t IH]; simpl.
  - split; [constructor | reflexivity].
  - destruct (p e) eqn:He; split; intros H.
    + discriminate.
    + inversion H; congruence.
    + constructor; [assumption | apply IH; lia].
    + inversion H; subst. apply IH. assumption.
Qed.

Lemma is_str_true (v : jsval) (lit : string) : is_str v lit = true <-> v = JStr lit.
Proof.
  unfold is_str. destruct v; simpl; try (split; [discriminate | discriminate]).
  rewrite String.eqb_eq. split; [intros -> | intros [= ->]]; reflexivity.
Qed.

Lemma is_str_false (v : jsval) (lit : string) : is_str v lit = false <-> v <> JStr lit.
Proof.
  rewrite <- is_str_true. destruct (is_str v lit); split; congruence.
Qed.

(** ** Inbound routing *)

(** C9. A request whose top-level [type] is [url_verification] is answered
    with a body that carries the supplied [challenge]; an [event_callback]
    request whose signature check fails is answered with status 404 and
    body "bad request"; a request of any other top-level [type] is
    answered with status 404 and body "bad request". *)
Theorem C9_inbound_routing (E : Env) (req : Request) (type : jsval) :
  get_prop (body req) "type" = inr type ->
  (type = JStr "url_verification" ->
     exists challenge,
       get_prop (body req) "challenge" = inr challenge /\
       outcome (module_exports E req)
       = inr {| status := None; res_body := JObj [("challenge", challenge)] |}) /\
  (type = JStr "event_callback" -> isVerified E req = false ->
     outcome (module_exports E req)
     = inr {| status := Some 404%Z; res_body := JStr "bad request" |}) /\
  (type <> JStr "url_verification" -> type <> JStr "event_callback" ->
     outcome (module_exports E req)
     = inr {| status := Some 404%Z; res_body := JStr "bad request" |}).
Proof.
  intros Htype. unfold module_exports, log.
  rewrite !bind_emit. cbn [outcome snd]. rewrite Htype, bind_lift.
  repeat split.
  - intros ->.
    assert (Hc : exists c, get_prop (body req) "challenge" = inr c).
    { destruct (body req); simpl in *; try discriminate; eauto. }
    destruct Hc as [c Hc]. exists c. split; [assumption |].
    replace (is_str (JStr "url_verification") "url_verification") with true by reflexivity.
    rewrite Hc, bind_lift. reflexivity.
  - intros -> Hsig.
    replace (is_str (JStr "event_callback") "url_verification") with false by reflexivity.
    replace (is_str (JStr "event_callback") "event_callback") with true by reflexivity.
    rewrite Hsig. reflexivity.
  - intros H1 H2.
    apply is_str_false in H1, H2. rewrite H1, H2. reflexivity.
Qed.

Lemma C9_inbound_routing_witness :
  let req := {| body := JObj [("type", JStr "app_rate_limited")]; headers := JUndef |} in
  get_prop (body req) "type" = inr (JStr "app_rate_limited") /\
  outcome (module_exports (Sample.world (inl TypeError) (inl TypeError)) req)
  = inr {| status := Some 404%Z; res_body := JStr "bad request" |}.
Proof.
  split; [reflexivity |].
  apply (C9_inbound_routing (Sample.world (inl TypeError) (inl TypeError))
           {| body := JObj [("type", JStr "app_rate_limited")]; headers := JUndef |}
           (JStr "app_rate_limited") eq_refl); discriminate.
Defined.

(** ** Properties that hold of every event of a trace *)

Section TraceForall.

Context {A B : Type} (P : event -> Prop).

Lemma Forall_trace_lift (r : R A) : Forall P (trace (lift r)).
Proof. constructor. Qed.

Lemma Forall_trace_ret (a : A) : Forall P (trace (ret a)).
Proof. constructor. Qed.

Lemma Forall_trace_emit (e : event) : P e -> Forall P (trace (emit e)).
Proof. intros H. repeat constructor. exact H. Qed.

Lemma Forall_trace_bind (m : M A) (k : A -> M B) :
  Forall P (trace m) ->
  (forall a, outcome m = inr a -> Forall P (trace (k a))) ->
  Forall P (trace (bind m k)).
Proof.
  intros Hm Hk. destruct (outcome m) as [e | a] eqn:Ho.
  - rewrite (bind_throws m k e Ho). exact Hm.
  - rewrite (bind_returns m k a Ho). cbn [trace fst].
    apply Forall_app; split; [exact Hm | apply Hk; reflexivity].
Qed.

Lemma Forall_trace_try (m : M A) (h : error -> M A) :
  Forall P (trace m) ->
  (forall e, outcome m = inl e -> Forall P (trace (h e))) ->
  Forall P (trace (try_catch m h)).
Proof.
  intros Hm Hh. destruct (outcome m) as [e | a] eqn:Ho.
  - rewrite (try_catch_throws m h e Ho). cbn [trace fst].
    apply Forall_app; split; [exact Hm | apply Hh; reflexivity].
  - rewrite (try_catch_returns m h a Ho). exact Hm.
Qed.

End TraceForall.

(** Walks through a computation, leaving one goal per emitted event. *)
Ltac walk :=
  repeat first
    [ apply Forall_trace_lift
    | apply Forall_trace_ret
    | apply Forall_trace_bind; [| intros ? ?]
    | apply Forall_trace_try; [| intros ? ?]
    | apply Forall_trace_emit
    | match goal with
      | |- Forall _ (trace (if ?b then _ else _)) => destruct b
      | |- Forall _ (trace (match ?x with _ => _ end)) => destruct x
      end ].

(** ** The token of a flag emoji *)

Lemma prefix_flag_inv (s : string) :
  String.prefix "flag-" s = true ->
  exists rest, s = String "f" (String "l" (String "a" (String "g" (String "-" rest)))).
Proof.
  intros H. apply String.prefix_correct in H.
  do 5 (destruct s as [| ? s]; [discriminate |]).
  simpl in H. injection H as -> -> -> -> ->. eauto.
Qed.

Lemma match_flag_has_word (s : string) : match_flag s = true -> has_word s = true.
Proof.
  induction s as [| c s IH]; [discriminate |].
  intros H. cbn [match_flag] in H. apply orb_true_iff in H as [H | H].
  - apply prefix_flag_inv in H as [rest [= -> _]]. reflexivity.
  - cbn [has_word]. rewrite (IH H). apply orb_true_r.
Qed.

Lemma has_word_start_fresh (s : string) :
  has_word s = true -> has_word_start false s = true.
Proof.
  induction s as [| c s IH]; [discriminate |].
  cbn [has_word has_word_start]. destruct (is_word c); [reflexivity |].
  simpl. exact IH.
Qed.

Lemma lookahead_flag_next_start (c : ascii) (rest : string) :
  lookahead_flag (String c rest) = true -> has_word_start (is_word c) rest = true.
Proof.
  unfold lookahead_flag. intros H. apply andb_true_iff in H as [Hp Hw].
  apply prefix_flag_inv in Hp as [tl [= -> ->]].
  simpl in Hw. destruct tl as [| w tl]; [discriminate |].
  simpl in Hw. cbn. rewrite Hw. reflexivity.
Qed.

Lemma match_token_finds (s : string) :
  forall prev_word, has_word_start prev_word s = true ->
                    exists token, match_token prev_word s = Some token.
Proof.
  induction s as [| c s IH]; intros pw H; [discriminate |].
  cbn [match_token].
  destruct (negb (lookahead_flag (String c s)) && negb pw && is_word c) eqn:Hc;
    [eauto |].
  apply IH. cbn [has_word_start] in H.
  destruct (lookahead_flag (String c s)) eqn:Hl.
  - apply lookahead_flag_next_start. exact Hl.
  - simpl in Hc. rewrite Hc in H. exact H.
Qed.

Lemma match_token_after_flag (r : string) :
  match_flag r = true -> exists token, match_token false r = Some token.
Proof.
  intros H. apply match_token_finds, has_word_start_fresh, match_flag_has_word, H.
Qed.

(** ** Language resolution *)

Lemma langcode_get_absent (table : gmap string string) (key : string) :
  table !! key = None -> is_inherited key = false -> langcode_get table key = None.
Proof. intros Hk Hi. unfold langcode_get. rewrite Hk, Hi. reflexivity. Qed.

Lemma resolve_absent (E : Env) (r : string) :
  langcode E !! r = None ->
  (forall token, match_flag r = true -> match_token false r = Some token ->
                 langcode_get (langcode E) token = None) ->
  resolve E (JStr r) = inr None.
Proof.
  intros Hdirect Hflag. unfold resolve.
  destruct (match_flag r) eqn:Hm.
  - destruct (match_token_after_flag r Hm) as [token Ht].
    rewrite Ht. cbn [rbind]. rewrite (Hflag token eq_refl Ht). reflexivity.
  - rewrite bool_decide_eq_false_2; [reflexivity |].
    apply not_elem_of_dom. exact Hdirect.
Qed.

Lemma resolve_some_string (E : Env) (reaction : jsval) (lang : lang_value) :
  resolve E reaction = inr (Some lang) -> exists emoji, reaction = JStr emoji.
Proof. destruct reaction; try discriminate. eauto. Qed.

(** ** The dispatcher *)

Section Dispatcher.

Variable E : Env.

Lemma sleep_free_getMessage (channel ts : jsval) :
  Forall (fun e => is_sleep e = false) (trace (getMessage E channel ts)).
Proof. unfold getMessage, axios_post_replies, log. walk; reflexivity. Qed.

Lemma sleep_free_postMessage (message translation : jsval) (lang : lang_value)
    (channel : jsval) (emoji : string) :
  Forall (fun e => is_sleep e = false)
         (trace (postMessage E message translation lang channel emoji)).
Proof. unfold postMessage, axios_post_message, log. walk; reflexivity. Qed.

Lemma sleep_free_translate_first (message : jsval) (lang : lang_value) :
  Forall (fun e => is_sleep e = false) (trace (translate_first E message lang)).
Proof.
  unfold translate_first, translationClient_translateText, log. walk; reflexivity.
Qed.

Lemma sleep_free_postTranslatedMessage (messages : jsval) (lang : lang_value)
    (channel : jsval) (emoji : string) :
  Forall (fun e => is_sleep e = false)
         (trace (postTranslatedMessage E messages lang channel emoji)).
Proof.
  unfold postTranslatedMessage, log. walk;
    try reflexivity; try apply sleep_free_translate_first; apply sleep_free_postMessage.
Qed.

Lemma sleep_free_fetch_and_post (item : jsval) (lang : lang_value) (emoji : string) :
  Forall (fun e => is_sleep e = false) (trace (fetch_and_post E item lang emoji)).
Proof.
  unfold fetch_and_post, log. walk;
    try reflexivity; try apply sleep_free_getMessage;
    apply sleep_free_postTranslatedMessage.
Qed.

(** Either the event is dropped before the delay, with nothing but log
    lines behind it, or it went through the three checks and the trace is
    the two log lines, the delay, a third log line and the pipeline. *)
Lemma events_cases (req : Request) :
  Forall quiet (trace (events E req)) \/
  exists ev item emoji lang,
    get_prop (body req) "event" = inr ev /\
    get_prop ev "type" = inr (JStr "reaction_added") /\
    get_prop ev "reaction" = inr (JStr emoji) /\
    get_prop ev "item" = inr item /\
    get_prop item "type" = inr (JStr "message") /\
    resolve E (JStr emoji) = inr (Some lang) /\
    events E req
    = ([ELog (LogItem item); ELog LogReacji] ++
       ESleep (random E * 5000)%Q ::
       ELog LogDelay :: trace (fetch_and_post E item lang emoji),
       outcome (fetch_and_post E item lang emoji)).
Proof.
  unfold events.
  destruct (get_prop (body req) "event") as [? | ev] eqn:Hev;
    rewrite bind_lift; [left; constructor |].
  destruct (get_prop ev "type") as [? | type] eqn:Hty;
    rewrite bind_lift; [left; constructor |].
  destruct (get_prop ev "user") as [? | user] eqn:Hus;
    rewrite bind_lift; [left; constructor |].
  destruct (get_prop ev "reaction") as [? | reaction] eqn:Hre;
    rewrite bind_lift; [left; constructor |].
  destruct (get_prop ev "item") as [? | item] eqn:Hit;
    rewrite bind_lift; [left; constructor |].
  unfold log. rewrite bind_emit.
  destruct (is_str type "reaction_added") eqn:Hra;
    [| left; repeat constructor].
  apply is_str_true in Hra. subst type. rewrite bind_emit.
  destruct (get_prop item "type") as [? | item_type] eqn:Hity;
    rewrite bind_lift; [left; repeat constructor |].
  destruct (is_str item_type "message") eqn:Hmsg;
    [| left; repeat constructor].
  apply is_str_true in Hmsg. subst item_type. cbn [negb].
  destruct (resolve E reaction) as [? | [lang |]] eqn:Hres;
    rewrite bind_lift; [left; repeat constructor | | left; repeat constructor].
  destruct (resolve_some_string E reaction lang Hres) as [emoji ->].
  right. exists ev, item, emoji, lang.
  repeat (split; [first [assumption | reflexivity] |]).
  unfold sleep. rewrite !bind_emit. reflexivity.
Qed.

End Dispatcher.

Lemma jitter_range (r : Q) : (0 <= r < 1)%Q -> (0 <= r * 5000 < 5000)%Q.
Proof.
  destruct r as [n d]. unfold Qle, Qlt. cbn [Qnum Qden Qmult].
  rewrite Pos.mul_1_r. lia.
Qed.

(** C4, on the code.  The emoji [flag-constructor] is no key of the
    table and neither is its token [constructor]; but line 103 reads
    [langcode[country]] with no test that the token is a key of the table
    (the branch without [flag-] does test it), and finds the function the
    table inherits from [Object.prototype].  The value is truthy: the
    dispatcher sleeps, fetches, translates and posts. *)
Theorem C4_inherited_key_runs_pipeline :
  let E := Sample.world (inr (Sample.replies (JArr [Sample.hello])))
                        (inr (Sample.translated "Konnichiwa")) in
  let req := Sample.callback "flag-constructor" in
  langcode E !! "flag-constructor" = None /\
  match_token false "flag-constructor" = Some "constructor" /\
  langcode E !! "constructor" = None /\
  resolve E (JStr "flag-constructor") = inr (Some (Inherited "constructor")) /\
  calls (trace (events E req)) = [KSleep; KFetch; KTranslate; KPost].
Proof. vm_compute. repeat split. Qed.

(** ** The duplicate check *)

Lemma get_prop_error (v : jsval) (p : string) (e : error) :
  get_prop v p = inl e -> e = TypeError.
Proof. destruct v; simpl; congruence. Qed.

Lemma get_index0_error (v : jsval) (e : error) :
  get_index0 v = inl e -> e = TypeError.
Proof. destruct v as [| | | | [|] | |]; simpl; congruence. Qed.

Lemma check_message_error (t : jsval) (b : bool) (m : jsval) (e : error) :
  check_message t b m = inl e -> e = TypeError.
Proof.
  unfold check_message. destruct b; cbn [negb]; [discriminate |].
  destruct (get_prop m "subtype") as [e1 | s] eqn:H1; cbn [rbind];
    [intros [= <-]; eapply get_prop_error, H1 |].
  destruct (truthy s); [| discriminate].
  destruct (get_prop m "attachments") as [e2 | a] eqn:H2; cbn [rbind];
    [intros [= <-]; eapply get_prop_error, H2 |].
  destruct (get_index0 a) as [e3 | f] eqn:H3; cbn [rbind];
    [intros [= <-]; eapply get_index0_error, H3 |].
  destruct (get_prop f "text") as [e4 | x] eqn:H4; cbn [rbind];
    [intros [= <-]; eapply get_prop_error, H4 |].
  destruct (strict_eq x t); discriminate.
Qed.

(** What it takes for one message to set the flag. *)
Lemma check_message_true (t m : jsval) :
  check_message t false m = inr true <->
  exists subtype attachments first text,
    get_prop m "subtype" = inr subtype /\ truthy subtype = true /\
    get_prop m "attachments" = inr attachments /\
    get_index0 attachments = inr first /\
    get_prop first "text" = inr text /\
    strict_eq text t = true.
Proof.
  unfold check_message. cbn [negb]. split.
  - destruct (get_prop m "subtype") as [? | s] eqn:H1; cbn [rbind]; [discriminate |].
    destruct (truthy s) eqn:Hs; [| discriminate].
    destruct (get_prop m "attachments") as [? | a] eqn:H2; cbn [rbind]; [discriminate |].
    destruct (get_index0 a) as [? | f] eqn:H3; cbn [rbind]; [discriminate |].
    destruct (get_prop f "text") as [? | x] eqn:H4; cbn [rbind]; [discriminate |].
    destruct (strict_eq x t) eqn:Hx; [| discriminate].
    intros _. exists s, a, f, x. repeat split; assumption || reflexivity.
  - intros (s & a & f & x & H1 & Hs & H2 & H3 & H4 & Hx).
    rewrite H1; cbn [rbind]. rewrite Hs, H2; cbn [rbind].
    rewrite H3; cbn [rbind]. rewrite H4; cbn [rbind]. rewrite Hx. reflexivity.
Qed.

Lemma forEach_flag_set (t : jsval) (ms : list jsval) :
  forEach (check_message t) true ms = inr true.
Proof. induction ms as [| x ms IH]; [reflexivity | exact IH]. Qed.

Lemma forEach_error (t : jsval) (ms : list jsval) (b : bool) (e : error) :
  forEach (check_message t) b ms = inl e -> e = TypeError.
Proof.
  revert b. induction ms as [| x ms IH]; intros b; [discriminate |].
  cbn [forEach]. destruct (check_message t b x) as [e' | b'] eqn:Hx; cbn [rbind].
  - intros [= <-]. eapply check_message_error, Hx.
  - apply IH.
Qed.

(** A matching message anywhere in the thread: the scan ends with the
    flag set, unless it threw on the way. *)
Lemma forEach_with_match (t m : jsval) (ms : list jsval) :
  In m ms -> check_message t false m = inr true ->
  forEach (check_message t) false ms <> inr false.
Proof.
  intros Hin Hm. induction ms as [| x ms IH]; [destruct Hin |].
  cbn [forEach]. destruct (check_message t false x) as [e | [|]] eqn:Hx; cbn [rbind].
  - discriminate.
  - rewrite forEach_flag_set. discriminate.
  - apply IH. destruct Hin as [-> | Hin]; [congruence | exact Hin].
Qed.

(** The matching message is reached when nothing before it throws. *)
Lemma forEach_reaches_match (t m : jsval) (pre post : list jsval) :
  Forall (fun x => exists b, check_message t false x = inr b) pre ->
  check_message t false m = inr true ->
  forEach (check_message t) false (pre ++ m :: post) = inr true.
Proof.
  intros Hpre Hm. induction Hpre as [| x pre [b Hx] _ IH]; cbn [app forEach].
  - rewrite Hm. cbn [rbind]. apply forEach_flag_set.
  - rewrite Hx. cbn [rbind]. destruct b; [apply forEach_flag_set | exact IH].
Qed.

Lemma forEach_true_has_match (t : jsval) (ms : list jsval) :
  forEach (check_message t) false ms = inr true ->
  exists m, In m ms /\ check_message t false m = inr true.
Proof.
  induction ms as [| x ms IH]; [discriminate |].
  cbn [forEach]. destruct (check_message t false x) as [e | [|]] eqn:Hx; cbn [rbind].
  - discriminate.
  - intros _. exists x. split; [left; reflexivity | exact Hx].
  - intros H. destruct (IH H) as (m & Hin & Hm). exists m. split; [right |]; assumption.
Qed.

(** A message with a subtype and no first attachment, met with the flag
    still unset, makes the scan throw. *)
Lemma forEach_unguarded_dereference (t m : jsval) (pre post : list jsval) :
  Forall (fun x => check_message t false x <> inr true) pre ->
  check_message t false m = inl TypeError ->
  forEach (check_message t) false (pre ++ m :: post) = inl TypeError.
Proof.
  intros Hpre Hm. induction Hpre as [| x pre Hx _ IH]; cbn [app forEach].
  - rewrite Hm. reflexivity.
  - destruct (check_message t false x) as [e | [|]] eqn:Hc; cbn [rbind].
    + f_equal. eapply check_message_error, Hc.
    + congruence.
    + exact IH.
Qed.

Lemma isAlreadyPosted_values (ms : list jsval) (t : jsval) :
  isAlreadyPosted (JArr ms) t = inr (JBool true) \/
  isAlreadyPosted (JArr ms) t = inr JUndef \/
  isAlreadyPosted (JArr ms) t = inl TypeError.
Proof.
  unfold isAlreadyPosted.
  destruct (forEach (check_message t) false ms) as [e | [|]] eqn:H; cbn [rbind]; auto.
  right; right. f_equal. eapply forEach_error, H.
Qed.

(** ** Translating and posting *)

Lemma get_prop_defined (v : jsval) (p q : string) (x : jsval) :
  get_prop v p = inr x -> exists y, get_prop v q = inr y.
Proof. destruct v; simpl; try discriminate; eauto. Qed.

Section Pipeline.

Variable E : Env.

Lemma translate_first_run (message : jsval) (lang : lang_value) (path text : jsval) :
  locationPath E (GOOGLE_PROJECT_ID E) (GOOGLE_LOCATION E) = inr path ->
  get_prop message "text" = inr text ->
  translate_first E message lang
  = match translateText E (request_for path text lang) with
    | inl e => ([ETranslate (request_for path text lang)], inl e)
    | inr reply =>
        match destructure_first reply with
        | inl e => ([ETranslate (request_for path text lang)], inl e)
        | inr response =>
            ([ETranslate (request_for path text lang);
              ELog (LogTransResponse response)],
             translation_of response)
        end
    end.
Proof.
  intros Hpath Htext. unfold translate_first, translationClient_translateText, log.
  rewrite Hpath, bind_lift, Htext, bind_lift. fold (request_for path text lang).
  rewrite bind_call.
  destruct (translateText E (request_for path text lang)) as [e | reply];
    [reflexivity |].
  rewrite bind_lift. destruct (destructure_first reply) as [e | response];
    [reflexivity |].
  rewrite bind_emit. cbn [trace outcome fst snd]. unfold translation_of.
  destruct (get_prop response "translations") as [e | translations];
    rewrite bind_lift; cbn [rbind]; [reflexivity |].
  destruct (get_index0 translations) as [e | first];
    rewrite bind_lift; cbn [rbind]; [reflexivity |].
  destruct (get_prop first "translatedText"); reflexivity.
Qed.

Lemma translate_first_early (message : jsval) (lang : lang_value) :
  (forall path, locationPath E (GOOGLE_PROJECT_ID E) (GOOGLE_LOCATION E) = inr path ->
                exists e, get_prop message "text" = inl e) ->
  exists e, translate_first E message lang = ([], inl e).
Proof.
  intros H. unfold translate_first.
  destruct (locationPath E (GOOGLE_PROJECT_ID E) (GOOGLE_LOCATION E)) as [e | path];
    rewrite bind_lift; [eauto |].
  destruct (H path eq_refl) as [e ->]. rewrite bind_lift. eauto.
Qed.

Lemma postMessage_run (message translation : jsval) (lang : lang_value)
    (channel : jsval) (emoji : string) (thread_ts ts text : jsval) :
  get_prop message "thread_ts" = inr thread_ts ->
  get_prop message "ts" = inr ts ->
  get_prop message "text" = inr text ->
  let args := post_args E thread_ts ts text translation lang channel emoji in
  postMessage E message translation lang channel emoji
  = match chat_postMessage E args with
    | inl e => ([EPost args], inl e)
    | inr result =>
        ([EPost args;
          match get_prop result "data" with
          | inl e => ELog (LogErr e)
          | inr data => ELog (LogData data)
          end], inr tt)
    end.
Proof.
  intros Htts Hts Htext args. unfold postMessage, axios_post_message, log.
  rewrite Htts, bind_lift.
  rewrite Hts.
  assert (Hanchor : (if truthy thread_ts then lift (inr thread_ts) else lift (inr ts))
                    = lift (A := jsval) (inr (if truthy thread_ts then thread_ts else ts))).
  { destruct (truthy thread_ts); reflexivity. }
  rewrite Hanchor, bind_lift, Htext, bind_lift.
  assert (Hargs : {| p_token := SLACK_ACCESS_TOKEN E;
                     p_channel := channel;
                     p_attachments :=
                       JSON_stringify E
                         (if truthy text
                          then JArr [translated_attachment emoji lang translation text]
                          else JArr [unsupported_attachment]);
                     p_as_user := false;
                     p_username := "Reacjilator Bot";
                     p_thread_ts := if truthy thread_ts then thread_ts else ts |}
                  = args) by reflexivity.
  rewrite Hargs, bind_call.
  destruct (chat_postMessage E args) as [e | result]; [reflexivity |].
  destruct (get_prop result "data") as [e | data]; reflexivity.
Qed.

Lemma postTranslatedMessage_run (messages : jsval) (lang : lang_value)
    (channel : jsval) (emoji : string) (message : jsval) :
  get_index0 messages = inr message ->
  let tf := translate_first E message lang in
  postTranslatedMessage E messages lang channel emoji
  = match outcome tf with
    | inl e => (trace tf ++ [ELog (LogErr e)], inr tt)
    | inr translation =>
        match isAlreadyPosted messages translation with
        | inl e => (trace tf ++ [ELog (LogErr e)], inr tt)
        | inr posted =>
            if truthy posted then (trace tf, inr tt)
            else
              let pm := postMessage E message translation lang channel emoji in
              (trace tf ++ trace pm
               ++ match outcome pm with
                  | inl e => [ELog (LogErr e)]
                  | inr _ => []
                  end, inr tt)
        end
    end.
Proof.
  intros Hm tf. unfold postTranslatedMessage. rewrite Hm, bind_lift. fold tf.
  destruct (outcome tf) as [e | translation] eqn:Htf.
  - rewrite (bind_throws tf _ e Htf).
    rewrite (try_catch_throws _ _ e) by reflexivity. reflexivity.
  - rewrite (bind_returns tf _ translation Htf).
    destruct (isAlreadyPosted messages translation) as [e | posted];
      rewrite bind_lift.
    + rewrite (try_catch_throws _ _ e) by reflexivity.
      cbn [trace outcome fst snd log emit]. rewrite app_nil_r. reflexivity.
    + destruct (truthy posted).
      * cbn [trace outcome fst snd ret]. rewrite app_nil_r. reflexivity.
      * cbv zeta.
        destruct (outcome (postMessage E message translation lang channel emoji))
          as [e | []] eqn:Hpm.
        -- rewrite (try_catch_throws _ _ e) by reflexivity.
           cbn [trace outcome fst snd log emit]. rewrite <- app_assoc. reflexivity.
        -- rewrite (try_catch_returns _ _ tt) by reflexivity.
           cbn [trace outcome fst snd]. rewrite app_nil_r. reflexivity.
Qed.

End Pipeline.

Section Counting.

Variable E : Env.

Lemma postMessage_cases (message translation : jsval) (lang : lang_value)
    (channel : jsval) (emoji : string) :
  postMessage E message translation lang channel emoji = ([], inl TypeError) \/
  exists thread_ts ts text,
    get_prop message "thread_ts" = inr thread_ts /\
    get_prop message "ts" = inr ts /\
    get_prop message "text" = inr text /\
    let args := post_args E thread_ts ts text translation lang channel emoji in
    exists tail r,
      postMessage E message translation lang channel emoji = (EPost args :: tail, r) /\
      Forall (fun e => is_network e = false) tail.
Proof.
  destruct (get_prop message "thread_ts") as [e | thread_ts] eqn:Htts.
  - left. unfold postMessage. rewrite Htts, bind_lift.
    rewrite (get_prop_error _ _ _ Htts). reflexivity.
  - right.
    destruct (get_prop_defined message "thread_ts" "ts" _ Htts) as [ts Hts].
    destruct (get_prop_defined message "thread_ts" "text" _ Htts) as [text Htext].
    exists thread_ts, ts, text. repeat (split; [first [assumption | reflexivity] |]).
    cbv zeta. rewrite (postMessage_run E _ translation lang channel emoji _ _ _ Htts Hts Htext).
    cbv zeta. set (args := post_args E thread_ts ts text translation lang channel emoji).
    destruct (chat_postMessage E args) as [e | result].
    + eexists _, _. split; [reflexivity | constructor].
    + eexists _, _. split; [reflexivity |].
      constructor; [| constructor].
      destruct (get_prop result "data"); reflexivity.
Qed.

Lemma count_quiet_tail (p : event -> bool) (t : list event) :
  (forall e, p e = true -> is_network e = true) ->
  Forall (fun e => is_network e = false) t -> count p t = 0.
Proof.
  intros Hp Ht. apply count_zero_Forall. eapply Forall_impl; [exact Ht |].
  intros e He. simpl in He. destruct (p e) eqn:Hpe; [| reflexivity].
  rewrite (Hp e Hpe) in He. discriminate.
Qed.

Lemma is_post_network (e : event) : is_post e = true -> is_network e = true.
Proof. destruct e; cbv; congruence. Qed.

Lemma is_translate_network (e : event) : is_translate e = true -> is_network e = true.
Proof. destruct e; cbv; congruence. Qed.

Lemma is_fetch_network (e : event) : is_fetch e = true -> is_network e = true.
Proof. destruct e; cbv; congruence. Qed.

Lemma postMessage_counts (message translation : jsval) (lang : lang_value)
    (channel : jsval) (emoji : string) :
  let t := trace (postMessage E message translation lang channel emoji) in
  count is_post t <= 1 /\ count is_translate t = 0 /\ count is_fetch t = 0.
Proof.
  destruct (postMessage_cases message translation lang channel emoji)
    as [-> | (thread_ts & ts & text & _ & _ & _ & tail & r & -> & Htail)].
  - cbn. lia.
  - cbn [trace fst count is_post is_translate is_fetch].
    rewrite (count_quiet_tail is_post tail is_post_network Htail).
    rewrite (count_quiet_tail is_translate tail is_translate_network Htail).
    rewrite (count_quiet_tail is_fetch tail is_fetch_network Htail).
    lia.
Qed.

(** The translation client is called at most once, and exactly once when
    a translation comes back. *)
Lemma translate_first_counts (message : jsval) (lang : lang_value) :
  let tf := translate_first E message lang in
  count is_post (trace tf) = 0 /\ count is_fetch (trace tf) = 0 /\
  count is_translate (trace tf) <= 1 /\
  (forall translation, outcome tf = inr translation ->
     count is_translate (trace tf) = 1 /\
     exists path text,
       locationPath E (GOOGLE_PROJECT_ID E) (GOOGLE_LOCATION E) = inr path /\
       get_prop message "text" = inr text).
Proof.
  destruct (locationPath E (GOOGLE_PROJECT_ID E) (GOOGLE_LOCATION E))
    as [e | path] eqn:Hpath.
  - destruct (translate_first_early E message lang) as [e' Hearly].
    { intros path Hp. rewrite Hpath in Hp. discriminate. }
    rewrite Hearly. cbn.
    split; [reflexivity |]. split; [reflexivity |]. split; [lia |]. intros ? [=].
  - destruct (get_prop message "text") as [e | text] eqn:Htext.
    + destruct (translate_first_early E message lang) as [e' Hearly].
      { intros _ _. rewrite Htext. eauto. }
      rewrite Hearly. cbn.
      split; [reflexivity |]. split; [reflexivity |]. split; [lia |]. intros ? [=].
    + rewrite (translate_first_run E message lang path text Hpath Htext).
      destruct (translateText E (request_for path text lang)) as [e | reply];
        [| destruct (destructure_first reply) as [e | response]];
        cbn; (split; [reflexivity |]); (split; [reflexivity |]); (split; [lia |]);
        intros translation Ht; try discriminate; split; eauto.
Qed.

Lemma getMessage_counts (channel ts : jsval) :
  let t := trace (getMessage E channel ts) in
  count is_post t = 0 /\ count is_translate t = 0 /\ count is_fetch t = 1.
Proof.
  unfold getMessage, axios_post_replies. rewrite bind_call.
  destruct (conversations_replies E _) as [e | result]; [cbn; auto |].
  destruct (get_prop result "data") as [e | data]; rewrite bind_lift;
    [cbn; auto |].
  destruct (get_prop data "messages"); cbn; auto.
Qed.

End Counting.

Section Handling.

Variable E : Env.

Lemma fetch_and_post_run (item : jsval) (lang : lang_value) (emoji : string) (channel ts : jsval) :
  get_prop item "channel" = inr channel ->
  get_prop item "ts" = inr ts ->
  let gm := getMessage E channel ts in
  fetch_and_post E item lang emoji
  = match outcome gm with
    | inl e => (trace gm, inl e)
    | inr messages =>
        let p := postTranslatedMessage E messages lang channel emoji in
        (trace gm ++ ELog (LogMessages messages) :: trace p,
         match outcome p with
         | inl e => inl e
         | inr _ => inr JUndef
         end)
    end.
Proof.
  intros Hch Hts gm. unfold fetch_and_post, log.
  rewrite Hch, bind_lift, Hts, bind_lift. fold gm.
  destruct (outcome gm) as [e | messages] eqn:Hgm.
  - apply bind_throws. exact Hgm.
  - rewrite (bind_returns gm _ messages Hgm), bind_emit. cbv zeta.
    destruct (outcome (postTranslatedMessage E messages lang channel emoji))
      as [e | []] eqn:Hp.
    + rewrite (bind_throws _ _ e Hp). reflexivity.
    + rewrite (bind_returns _ _ tt Hp). cbn [trace outcome fst snd ret].
      rewrite app_nil_r. reflexivity.
Qed.

Lemma events_run (req : Request) (ev item : jsval) (emoji : string) (lang : lang_value) :
  get_prop (body req) "event" = inr ev ->
  get_prop ev "type" = inr (JStr "reaction_added") ->
  get_prop ev "reaction" = inr (JStr emoji) ->
  get_prop ev "item" = inr item ->
  get_prop item "type" = inr (JStr "message") ->
  resolve E (JStr emoji) = inr (Some lang) ->
  events E req
  = ([ELog (LogItem item); ELog LogReacji] ++
     ESleep (random E * 5000)%Q ::
     ELog LogDelay :: trace (fetch_and_post E item lang emoji),
     outcome (fetch_and_post E item lang emoji)).
Proof.
  intros Hev Hty Hre Hit Hity Hres.
  destruct (get_prop_defined ev "type" "user" _ Hty) as [user Hus].
  unfold events, log, sleep.
  rewrite Hev, bind_lift, Hty, bind_lift, Hus, bind_lift, Hre, bind_lift,
    Hit, bind_lift, bind_emit.
  replace (is_str (JStr "reaction_added") "reaction_added") with true by reflexivity.
  rewrite bind_emit, Hity, bind_lift.
  replace (is_str (JStr "message") "message") with true by reflexivity.
  cbn [negb]. rewrite Hres, bind_lift, !bind_emit. reflexivity.
Qed.

Lemma module_exports_verified (req : Request) :
  get_prop (body req) "type" = inr (JStr "event_callback") ->
  isVerified E req = true ->
  module_exports E req
  = (ELog LogProcessed :: ELog (LogRequest req) :: trace (events E req),
     match outcome (events E req) with
     | inl e => inl e
     | inr result => inr {| status := None; res_body := result |}
     end).
Proof.
  intros Hty Hsig. unfold module_exports, log. rewrite !bind_emit.
  cbn [trace outcome fst snd]. rewrite Hty, bind_lift.
  replace (is_str (JStr "event_callback") "url_verification") with false by reflexivity.
  replace (is_str (JStr "event_callback") "event_callback") with true by reflexivity.
  rewrite Hsig. cbn [negb].
  destruct (outcome (events E req)) as [e | result] eqn:Hev.
  - rewrite (bind_throws _ _ e Hev). reflexivity.
  - rewrite (bind_returns _ _ result Hev). cbn [trace outcome fst snd ret].
    rewrite app_nil_r. reflexivity.
Qed.

End Handling.

(** ** The delay *)

(** C6. The delay lasts [Math.random() * 5000] milliseconds, a value of
    [0, 5000) that is the draw of [Math.random] scaled linearly (so it is
    spread over that range as the draw is over [0, 1)).  An event that is
    a [reaction_added] on a [message] and whose emoji resolves to a
    language incurs that delay: the trace is log lines only, then the one
    delay, then the rest, in which the remote calls lie (the thread fetch
    at least).  An event that is rejected, as not a reaction, not on a
    message, or with an emoji that resolves to nothing, incurs no delay
    and makes no remote call; and so does every event that does not pass
    the three checks for any other reason. *)
Theorem C6_jitter_after_checks_before_calls (E : Env) (req : Request) :
  (0 <= random E < 1)%Q ->
  (forall ev item emoji lang,
      get_prop (body req) "event" = inr ev ->
      get_prop ev "type" = inr (JStr "reaction_added") ->
      get_prop ev "reaction" = inr (JStr emoji) ->
      get_prop ev "item" = inr item ->
      get_prop item "type" = inr (JStr "message") ->
      resolve E (JStr emoji) = inr (Some lang) ->
      exists pre post,
        trace (events E req) = pre ++ ESleep (random E * 5000)%Q :: post /\
        (0 <= random E * 5000 < 5000)%Q /\
        Forall quiet pre /\
        count is_sleep post = 0 /\
        1 <= count is_network post) /\
  (forall ev type reaction item,
      get_prop (body req) "event" = inr ev ->
      get_prop ev "type" = inr type ->
      get_prop ev "reaction" = inr reaction ->
      get_prop ev "item" = inr item ->
      type <> JStr "reaction_added" \/
      get_prop item "type" <> inr (JStr "message") \/
      resolve E reaction = inr None ->
      count is_sleep (trace (events E req)) = 0 /\
      count is_network (trace (events E req)) = 0) /\
  ((count is_sleep (trace (events E req)) = 0 /\
    count is_network (trace (events E req)) = 0)
   \/
   (exists ev item emoji lang,
       get_prop (body req) "event" = inr ev /\
       get_prop ev "type" = inr (JStr "reaction_added") /\
       get_prop ev "reaction" = inr (JStr emoji) /\
       get_prop ev "item" = inr item /\
       get_prop item "type" = inr (JStr "message") /\
       resolve E (JStr emoji) = inr (Some lang))).
Proof.
  intros Hrandom.
  assert (Hquiet : Forall quiet (trace (events E req)) ->
                   count is_sleep (trace (events E req)) = 0 /\
                   count is_network (trace (events E req)) = 0).
  { intros Hq. split; apply count_zero_Forall; eapply Forall_impl; try exact Hq;
      intros e [Hs Hn]; assumption. }
  split; [| split].
  - intros ev item emoji lang Hev Hty Hre Hit Hity Hres.
    exists [ELog (LogItem item); ELog LogReacji],
      (ELog LogDelay :: trace (fetch_and_post E item lang emoji)).
    split; [rewrite (events_run E req ev item emoji lang Hev Hty Hre Hit Hity Hres);
            reflexivity |].
    split; [apply jitter_range; exact Hrandom |].
    split; [repeat constructor |].
    split.
    + apply count_zero_Forall. constructor; [reflexivity |].
      apply sleep_free_fetch_and_post.
    + destruct (get_prop_defined item "type" "channel" _ Hity) as [channel Hch].
      destruct (get_prop_defined item "type" "ts" _ Hity) as [ts Hts].
      rewrite (fetch_and_post_run E item lang emoji channel ts Hch Hts). cbv zeta.
      assert (Hf : 1 <= count is_network (trace (getMessage E channel ts))).
      { unfold getMessage, axios_post_replies. rewrite bind_call.
        destruct (conversations_replies E _); cbn [trace fst count is_network is_fetch orb];
          lia. }
      cbn [count is_network is_fetch is_translate is_post orb].
      destruct (outcome (getMessage E channel ts)); cbn [trace fst];
        [| rewrite count_app]; lia.
  - intros ev type reaction item Hev Hty Hre Hit Hrej.
    destruct (events_cases E req)
      as [Hq | (ev' & item' & emoji & lang & H1 & H2 & H3 & H4 & H5 & H6 & _)];
      [exact (Hquiet Hq) |].
    exfalso.
    rewrite Hev in H1. injection H1 as <-.
    rewrite Hty in H2. injection H2 as ->.
    rewrite Hre in H3. injection H3 as ->.
    rewrite Hit in H4. injection H4 as <-.
    destruct Hrej as [Hrej | [Hrej | Hrej]];
      [destruct (Hrej eq_refl) | destruct (Hrej H5) | congruence].
  - destruct (events_cases E req)
      as [Hq | (ev & item & emoji & lang & H1 & H2 & H3 & H4 & H5 & H6 & _)].
    + left. exact (Hquiet Hq).
    + right. exists ev, item, emoji, lang. repeat (split; [assumption |]). exact H6.
Qed.

Lemma C6_jitter_after_checks_before_calls_witness :
  let E := Sample.world (inr (Sample.replies (JArr [Sample.hello])))
                        (inr (Sample.translated "Konnichiwa")) in
  (0 <= random E < 1)%Q /\
  resolve E (JStr "flag-jp") = inr (Some (LangCode "ja")) /\
  exists pre post,
    trace (events E (Sample.callback "flag-jp"))
    = pre ++ ESleep (random E * 5000)%Q :: post /\
    (0 <= random E * 5000 < 5000)%Q /\
    Forall quiet pre /\
    count is_sleep post = 0 /\
    1 <= count is_network post.
Proof.
  assert (H : (0 <= 1 # 2 < 1)%Q) by (unfold Qle, Qlt; simpl; lia).
  assert (Hres : resolve (Sample.world (inr (Sample.replies (JArr [Sample.hello])))
                                       (inr (Sample.translated "Konnichiwa")))
                         (JStr "flag-jp") = inr (Some (LangCode "ja")))
    by (vm_compute; reflexivity).
  split; [exact H |]. split; [exact Hres |].
  exact (proj1 (C6_jitter_after_checks_before_calls
                  (Sample.world (inr (Sample.replies (JArr [Sample.hello])))
                                (inr (Sample.translated "Konnichiwa")))
                  (Sample.callback "flag-jp") H)
           (Sample.reaction_event "reaction_added" "flag-jp" "message")
           (JObj [("type", JStr "message"); ("channel", JStr "C1"); ("ts", JStr "100.1")])
           "flag-jp" (LangCode "ja") eq_refl eq_refl eq_refl eq_refl eq_refl Hres).
Defined.

(** ** The posted reply *)

(** What [postMessage] posts, if it posts. *)
Lemma posted_args (E : Env) (message translation : jsval) (lang : lang_value)
    (channel : jsval) (emoji : string) (args : PostArgs) :
  In (EPost args) (trace (postMessage E message translation lang channel emoji)) ->
  exists thread_ts ts text,
    get_prop message "thread_ts" = inr thread_ts /\
    get_prop message "ts" = inr ts /\
    get_prop message "text" = inr text /\
    args = post_args E thread_ts ts text translation lang channel emoji.
Proof.
  intros Hin.
  destruct (postMessage_cases E message translation lang channel emoji)
    as [Hnull | (thread_ts & ts & text & Htts & Hts & Htext & tail & r & Hrun & Htail)].
  - rewrite Hnull in Hin. destruct Hin.
  - exists thread_ts, ts, text. repeat (split; [assumption |]).
    rewrite Hrun in Hin. cbn [trace fst] in Hin.
    destruct Hin as [[= <-] | Hin]; [reflexivity |].
    exfalso. rewrite Forall_forall in Htail.
    apply list_elem_of_In in Hin. specialize (Htail _ Hin). discriminate.
Qed.




(** ** A message without text *)

(** A message whose text is the empty string, and the translation client
    asked all the same. *)
Lemma C2_counterexample :
  let E := Sample.world (inl TypeError) (inr (Sample.translated "")) in
  let message := JObj [("text", JStr ""); ("ts", JStr "100.1")] in
  get_prop message "text" = inr (JStr "") /\
  truthy (JStr "") = false /\
  count is_translate
    (trace (postTranslatedMessage E (JArr [message]) (LangCode "ja") (JStr "C1") "jp")) = 1.
Proof. repeat split. Qed.

(** C2, as the code has it.  For a reacted-to message whose text is empty
    (falsy), the translation client is still called, exactly once and with
    that text as the only content, as soon as the parent path of the
    request is built; and every reply that is then posted is the fixed
    "not supported" attachment, which has no body and no footer. *)
Theorem C2_empty_text_translated_then_unsupported (E : Env) (messages message : jsval)
    (text path : jsval) (lang : lang_value) (channel : jsval) (emoji : string) :
  get_index0 messages = inr message ->
  get_prop message "text" = inr text ->
  truthy text = false ->
  locationPath E (GOOGLE_PROJECT_ID E) (GOOGLE_LOCATION E) = inr path ->
  let run := postTranslatedMessage E messages lang channel emoji in
  count is_translate (trace run) = 1 /\
  In (ETranslate (request_for path text lang)) (trace run) /\
  (forall args, In (EPost args) (trace run) ->
                p_attachments args = JSON_stringify E (JArr [unsupported_attachment])) /\
  get_prop unsupported_attachment "text" = inr JUndef /\
  get_prop unsupported_attachment "footer" = inr JUndef.
Proof.
  intros Hm Htext Hempty Hpath run. subst run.
  rewrite (postTranslatedMessage_run E messages lang channel emoji message Hm).
  cbv zeta.
  pose proof (translate_first_run E message lang path text Hpath Htext) as Htf.
  set (tf := translate_first E message lang) in *.
  assert (Hhead : exists tail, trace tf = ETranslate (request_for path text lang) :: tail
                               /\ Forall (fun e => is_network e = false) tail).
  { rewrite Htf.
    destruct (translateText E (request_for path text lang)) as [e | reply];
      [| destruct (destructure_first reply) as [e | response]];
      eexists; (split; [reflexivity |]); repeat constructor. }
  destruct Hhead as (tail & Htrace & Htail).
  assert (Hpost_tail : forall args, ~ In (EPost args) tail).
  { intros args Hin. rewrite Forall_forall in Htail.
    apply list_elem_of_In in Hin. specialize (Htail _ Hin). discriminate. }
  assert (Hcount : count is_translate (trace tf) = 1).
  { rewrite Htrace. cbn [count is_translate].
    rewrite (count_quiet_tail is_translate tail is_translate_network Htail). reflexivity. }
  assert (Hnopost : forall args, ~ In (EPost args) (trace tf)).
  { intros args. rewrite Htrace. intros [[=] | Hin]. exact (Hpost_tail args Hin). }
  assert (Hin_tf : In (ETranslate (request_for path text lang)) (trace tf)).
  { rewrite Htrace. left. reflexivity. }
  assert (Hlog : forall e args, ~ In (EPost args) [ELog (LogErr e)]).
  { intros e args [[=] | []]. }
  split; [| split; [| split; [| split; reflexivity]]].
  - destruct (outcome tf) as [e | translation];
      [cbn [trace fst]; rewrite count_app, Hcount; reflexivity |].
    destruct (isAlreadyPosted messages translation) as [e | posted];
      [cbn [trace fst]; rewrite count_app, Hcount; reflexivity |].
    destruct (truthy posted); [exact Hcount |].
    cbn [trace fst]. rewrite !count_app, Hcount.
    destruct (postMessage_counts E message translation lang channel emoji) as (_ & -> & _).
    destruct (outcome (postMessage E message translation lang channel emoji));
      reflexivity.
  - destruct (outcome tf) as [e | translation];
      [cbn [trace fst]; apply in_or_app; left; exact Hin_tf |].
    destruct (isAlreadyPosted messages translation) as [e | posted];
      [cbn [trace fst]; apply in_or_app; left; exact Hin_tf |].
    destruct (truthy posted); [exact Hin_tf |].
    cbn [trace fst]. apply in_or_app. left. exact Hin_tf.
  - intros args.
    destruct (outcome tf) as [e | translation].
    { cbn [trace fst]. intros Hin. apply in_app_or in Hin as [Hin | Hin];
        [destruct (Hnopost _ Hin) | destruct (Hlog _ _ Hin)]. }
    destruct (isAlreadyPosted messages translation) as [e | posted].
    { cbn [trace fst]. intros Hin. apply in_app_or in Hin as [Hin | Hin];
        [destruct (Hnopost _ Hin) | destruct (Hlog _ _ Hin)]. }
    destruct (truthy posted); [intros Hin; destruct (Hnopost _ Hin) |].
    cbn [trace fst]. intros Hin.
    apply in_app_or in Hin as [Hin | Hin]; [destruct (Hnopost _ Hin) |].
    apply in_app_or in Hin as [Hin | Hin].
    + destruct (posted_args E message translation lang channel emoji args Hin)
        as (thread_ts & ts & text' & _ & _ & Htext' & ->).
      rewrite Htext in Htext'. injection Htext' as <-.
      cbn [post_args p_attachments]. rewrite Hempty. reflexivity.
    + destruct (outcome (postMessage E message translation lang channel emoji));
        [destruct (Hlog _ _ Hin) | destruct Hin].
Qed.

Lemma C2_empty_text_translated_then_unsupported_witness :
  let E := Sample.world (inl TypeError) (inr (Sample.translated "")) in
  let message := JObj [("text", JStr ""); ("ts", JStr "100.1")] in
  let run := postTranslatedMessage E (JArr [message]) (LangCode "ja") (JStr "C1") "jp" in
  truthy (JStr "") = false /\
  count is_translate (trace run) = 1 /\
  In (ETranslate (request_for (JStr "projects/project/locations/global")
                    (JStr "") (LangCode "ja"))) (trace run).
Proof.
  split; [reflexivity |].
  pose proof (C2_empty_text_translated_then_unsupported
                (Sample.world (inl TypeError) (inr (Sample.translated "")))
                (JArr [JObj [("text", JStr ""); ("ts", JStr "100.1")]])
                (JObj [("text", JStr ""); ("ts", JStr "100.1")])
                (JStr "") (JStr "projects/project/locations/global")
                (LangCode "ja") (JStr "C1") "jp" eq_refl eq_refl eq_refl eq_refl) as H.
  split; [exact (proj1 H) | exact (proj1 (proj2 H))].
Defined.

(** ** Duplicate suppression *)

Lemma prior_post_check (t m : jsval) :
  prior_post t m <-> check_message t false m = inr true.
Proof. symmetry. apply check_message_true. Qed.

Lemma isAlreadyPosted_with_match (t m : jsval) (ms : list jsval) :
  In m ms -> prior_post t m ->
  isAlreadyPosted (JArr ms) t = inr (JBool true) \/
  isAlreadyPosted (JArr ms) t = inl TypeError.
Proof.
  intros Hin Hm. apply prior_post_check in Hm.
  pose proof (forEach_with_match t m ms Hin Hm) as Hne.
  unfold isAlreadyPosted.
  destruct (forEach (check_message t) false ms) as [e | [|]] eqn:H; cbn [rbind].
  - right. f_equal. eapply forEach_error, H.
  - left. reflexivity.
  - congruence.
Qed.

(** When the thread holds an earlier post of the translation, nothing is
    posted. *)
Lemma no_post_when_posted (E : Env) (t m : jsval) (ms : list jsval)
    (lang : lang_value) (channel : jsval) (emoji : string) :
  In m ms -> prior_post t m ->
  outcome (translate_first E (hd JUndef ms) lang) = inr t ->
  count is_post (trace (postTranslatedMessage E (JArr ms) lang channel emoji)) = 0.
Proof.
  intros Hin Hm Htf.
  rewrite (postTranslatedMessage_run E (JArr ms) lang channel emoji (hd JUndef ms) eq_refl).
  cbv zeta. rewrite Htf.
  destruct (translate_first_counts E (hd JUndef ms) lang) as (Hp & _).
  destruct (isAlreadyPosted_with_match t m ms Hin Hm) as [-> | ->].
  - exact Hp.
  - cbn [trace fst]. rewrite count_app, Hp. reflexivity.
Qed.

Lemma checkable_scannable (t m : jsval) : checkable m -> scannable t m.
Proof.
  intros (subtype & Hs & Hrest). unfold scannable, check_message. cbn [negb].
  rewrite Hs. cbn [rbind]. destruct (truthy subtype); [| eauto].
  destruct (Hrest eq_refl) as (a & f & x & -> & Hf & Hx). cbn [rbind].
  rewrite Hf. cbn [rbind]. rewrite Hx. cbn [rbind].
  destruct (strict_eq x t); eauto.
Qed.

(** C3, on the code.  The thread holds an earlier post of the
    translation, and before it a message with a subtype and no
    attachments: line 171 reads [attachments[0]] of that message with no
    test that there are attachments, so the duplicate check throws a
    TypeError where the claim has it return [true].  The throw is caught
    by [postTranslatedMessage] and logged; nothing is posted. *)
Theorem C3_scan_throws_before_match :
  let E := Sample.world (inl TypeError) (inr (Sample.translated "Bonjour")) in
  let thread := [Sample.hello; Sample.bare_bot_message; Sample.bot_reply "Bonjour"] in
  In (Sample.bot_reply "Bonjour") thread /\
  prior_post (JStr "Bonjour") (Sample.bot_reply "Bonjour") /\
  isAlreadyPosted (JArr thread) (JStr "Bonjour") = inl TypeError /\
  outcome (translate_first E (hd JUndef thread) (LangCode "fr")) = inr (JStr "Bonjour") /\
  count is_post
    (trace (postTranslatedMessage E (JArr thread) (LangCode "fr") (JStr "C1") "fr")) = 0 /\
  In (ELog (LogErr TypeError))
     (trace (postTranslatedMessage E (JArr thread) (LangCode "fr") (JStr "C1") "fr")).
Proof.
  split; [right; right; left; reflexivity |].
  split; [apply prior_post_check; reflexivity |].
  vm_compute. repeat split. auto.
Qed.

(** X18. When the thread holds a message with a subtype whose first
    attachment has the translation as its text, then, in whatever order
    the thread is: the duplicate check returns [true] or throws a
    TypeError, never [undefined]; it returns [true] when line 171 can be
    evaluated on every message scanned before that one; and
    [postTranslatedMessage] posts nothing when that translation comes
    back.  Conversely the check returns [true] only if some message of the
    thread has a subtype and a first attachment whose text is the
    translation. *)
Theorem duplicate_is_never_posted (E : Env) (ms ms' : list jsval) (m translation : jsval)
    (lang : lang_value) (channel : jsval) (emoji : string) :
  In m ms -> prior_post translation m -> Permutation ms ms' ->
  (isAlreadyPosted (JArr ms') translation = inr (JBool true) \/
   isAlreadyPosted (JArr ms') translation = inl TypeError) /\
  (forall pre post,
      ms' = pre ++ m :: post -> Forall checkable pre ->
      isAlreadyPosted (JArr ms') translation = inr (JBool true)) /\
  (outcome (translate_first E (hd JUndef ms') lang) = inr translation ->
   count is_post (trace (postTranslatedMessage E (JArr ms') lang channel emoji)) = 0) /\
  (forall thread t,
      isAlreadyPosted (JArr thread) t = inr (JBool true) ->
      exists x, In x thread /\ prior_post t x).
Proof.
  intros Hin Hm Hperm.
  assert (Hin' : In m ms') by (eapply Permutation_in; eassumption).
  split; [| split; [| split]].
  - exact (isAlreadyPosted_with_match translation m ms' Hin' Hm).
  - intros pre post -> Hpre. unfold isAlreadyPosted.
    rewrite (forEach_reaches_match translation m pre post);
      [reflexivity | | apply prior_post_check; exact Hm].
    eapply Forall_impl; [exact Hpre |]. intros x. apply checkable_scannable.
  - apply (no_post_when_posted E translation m ms' lang channel emoji Hin' Hm).
  - intros thread t. unfold isAlreadyPosted.
    destruct (forEach (check_message t) false thread) as [e | [|]] eqn:H;
      cbn [rbind]; try discriminate.
    intros _. destruct (forEach_true_has_match t thread H) as (x & Hx & Hc).
    exists x. split; [exact Hx | apply prior_post_check; exact Hc].
Qed.

Lemma duplicate_is_never_posted_witness :
  let E := Sample.world (inl TypeError) (inr (Sample.translated "Bonjour")) in
  let thread := [Sample.hello; Sample.bot_reply "Bonjour"] in
  let thread' := [Sample.bot_reply "Bonjour"; Sample.hello] in
  In (Sample.bot_reply "Bonjour") thread /\
  Permutation thread thread' /\
  (isAlreadyPosted (JArr thread') (JStr "Bonjour") = inr (JBool true) \/
   isAlreadyPosted (JArr thread') (JStr "Bonjour") = inl TypeError).
Proof.
  assert (Hin : In (Sample.bot_reply "Bonjour")
                   [Sample.hello; Sample.bot_reply "Bonjour"])
    by (right; left; reflexivity).
  assert (Hperm : Permutation [Sample.hello; Sample.bot_reply "Bonjour"]
                              [Sample.bot_reply "Bonjour"; Sample.hello])
    by apply perm_swap.
  assert (Hprior : prior_post (JStr "Bonjour") (Sample.bot_reply "Bonjour")).
  { exists (JStr "bot_message"), (JArr [JObj [("text", JStr "Bonjour")]]),
      (JObj [("text", JStr "Bonjour")]), (JStr "Bonjour").
    repeat split. }
  split; [exact Hin |]. split; [exact Hperm |].
  exact (proj1 (duplicate_is_never_posted
                  (Sample.world (inl TypeError) (inr (Sample.translated "Bonjour")))
                  _ _ _ _ (LangCode "fr") (JStr "C1") "fr" Hin Hprior Hperm)).
Defined.

(** ** A message with a subtype and no attachments *)

(** The earlier post comes first: the flag is already set when the
    message without attachments is met, nothing is dereferenced and
    nothing is thrown. *)
Lemma C10_counterexample :
  let E := Sample.world (inl TypeError) (inr (Sample.translated "Bonjour")) in
  let thread := [Sample.bot_reply "Bonjour"; Sample.bare_bot_message] in
  In Sample.bare_bot_message thread /\
  get_prop Sample.bare_bot_message "subtype" = inr (JStr "bot_message") /\
  truthy (JStr "bot_message") = true /\
  get_prop Sample.bare_bot_message "attachments" = inr JUndef /\
  isAlreadyPosted (JArr thread) (JStr "Bonjour") = inr (JBool true) /\
  count is_error_log
    (trace (postTranslatedMessage E (JArr thread) (LangCode "fr") (JStr "C1") "fr")) = 0.
Proof. split; [right; left; reflexivity | repeat split]. Qed.

(** C10, as the code has it.  A message of the fetched thread with a
    truthy subtype, before which no message of the thread is taken for an
    earlier post of the translation (the condition tests [!alreadyPosted]
    first), has the text of its first attachment dereferenced by the
    duplicate check; if it carries no attachments array, a TypeError is
    raised inside the duplicate check, which the [try]/[catch] of the
    translate-and-post step catches and logs: the event ends with the
    translation computed (one request), no post, and no error escaping
    the handler, which answers as for any handled event. *)
Theorem C10_unguarded_attachment (E : Env) (req : Request) (ev item : jsval)
    (emoji : string) (lang : lang_value) (channel ts : jsval)
    (pre post : list jsval) (m subtype translation : jsval) :
  get_prop (body req) "type" = inr (JStr "event_callback") ->
  isVerified E req = true ->
  get_prop (body req) "event" = inr ev ->
  get_prop ev "type" = inr (JStr "reaction_added") ->
  get_prop ev "reaction" = inr (JStr emoji) ->
  get_prop ev "item" = inr item ->
  get_prop item "type" = inr (JStr "message") ->
  resolve E (JStr emoji) = inr (Some lang) ->
  get_prop item "channel" = inr channel ->
  get_prop item "ts" = inr ts ->
  let thread := pre ++ m :: post in
  outcome (getMessage E channel ts) = inr (JArr thread) ->
  outcome (translate_first E (hd JUndef thread) lang) = inr translation ->
  get_prop m "subtype" = inr subtype ->
  truthy subtype = true ->
  get_prop m "attachments" = inr JUndef ->
  Forall (fun x => ~ prior_post translation x) pre ->
  isAlreadyPosted (JArr thread) translation = inl TypeError /\
  postTranslatedMessage E (JArr thread) lang channel emoji
  = (trace (translate_first E (hd JUndef thread) lang) ++ [ELog (LogErr TypeError)],
     inr tt) /\
  outcome (module_exports E req) = inr {| status := None; res_body := JUndef |} /\
  count is_translate (trace (module_exports E req)) = 1 /\
  count is_post (trace (module_exports E req)) = 0 /\
  In (ELog (LogErr TypeError)) (trace (module_exports E req)).
Proof.
  intros Hcb Hsig Hev Hty Hre Hit Hity Hres Hch Hts thread Hgm Htf Hsub Htruthy Hatt Hpre.
  assert (Hthrow : isAlreadyPosted (JArr thread) translation = inl TypeError).
  { unfold isAlreadyPosted, thread.
    rewrite (forEach_unguarded_dereference translation m pre post); [reflexivity | |].
    - eapply Forall_impl; [exact Hpre |]. intros x Hx Hc. cbv beta in Hx.
      apply Hx, prior_post_check, Hc.
    - unfold check_message. cbn [negb]. rewrite Hsub. cbn [rbind].
      rewrite Htruthy, Hatt. reflexivity. }
  assert (Hstep : postTranslatedMessage E (JArr thread) lang channel emoji
                  = (trace (translate_first E (hd JUndef thread) lang)
                     ++ [ELog (LogErr TypeError)], inr tt)).
  { rewrite (postTranslatedMessage_run E (JArr thread) lang channel emoji
               (hd JUndef thread) eq_refl).
    cbv zeta. rewrite Htf, Hthrow. reflexivity. }
  split; [exact Hthrow |]. split; [exact Hstep |].
  rewrite (module_exports_verified E req Hcb Hsig).
  rewrite (events_run E req ev item emoji lang Hev Hty Hre Hit Hity Hres).
  rewrite (fetch_and_post_run E item lang emoji channel ts Hch Hts).
  cbv zeta. rewrite Hgm, Hstep.
  cbn [trace outcome fst snd app count is_translate is_post].
  rewrite !count_app. cbn [count is_translate is_post]. rewrite !count_app.
  destruct (getMessage_counts E channel ts) as (Hg1 & Hg2 & _).
  destruct (translate_first_counts E (hd JUndef thread) lang) as (Hp & _ & _ & Hone).
  destruct (Hone translation Htf) as [Hc _].
  rewrite Hg1, Hg2, Hc, Hp. cbn [count is_translate is_post].
  split; [reflexivity |]. split; [reflexivity |]. split; [reflexivity |].
  do 6 right. apply in_or_app. right. right.
  apply in_or_app. right. left. reflexivity.
Qed.

Lemma C10_unguarded_attachment_witness :
  let thread := [Sample.hello; Sample.bare_bot_message; Sample.bot_reply "Bonjour"] in
  let E := Sample.world (inr (Sample.replies (JArr thread)))
                        (inr (Sample.translated "Bonjour")) in
  let req := Sample.callback "fr" in
  get_prop Sample.bare_bot_message "subtype" = inr (JStr "bot_message") /\
  get_prop Sample.bare_bot_message "attachments" = inr JUndef /\
  outcome (getMessage E (JStr "C1") (JStr "100.1")) = inr (JArr thread) /\
  isAlreadyPosted (JArr thread) (JStr "Bonjour") = inl TypeError /\
  outcome (module_exports E req) = inr {| status := None; res_body := JUndef |} /\
  count is_translate (trace (module_exports E req)) = 1 /\
  count is_post (trace (module_exports E req)) = 0.
Proof.
  split; [reflexivity |]. split; [reflexivity |]. split; [reflexivity |].
  assert (Hres : resolve
                   (Sample.world
                      (inr (Sample.replies
                              (JArr [Sample.hello; Sample.bare_bot_message;
                                     Sample.bot_reply "Bonjour"])))
                      (inr (Sample.translated "Bonjour")))
                   (JStr "fr") = inr (Some (LangCode "fr")))
    by (vm_compute; reflexivity).
  assert (Hpre : Forall (fun x => ~ prior_post (JStr "Bonjour") x) [Sample.hello]).
  { constructor; [| constructor].
    intros (s & a & f & x & Hs & Ht & _). injection Hs as <-. discriminate Ht. }
  destruct (C10_unguarded_attachment
              (Sample.world
                 (inr (Sample.replies
                         (JArr [Sample.hello; Sample.bare_bot_message;
                                Sample.bot_reply "Bonjour"])))
                 (inr (Sample.translated "Bonjour")))
              (Sample.callback "fr")
              (Sample.reaction_event "reaction_added" "fr" "message")
              (JObj [("type", JStr "message"); ("channel", JStr "C1");
                     ("ts", JStr "100.1")])
              "fr" (LangCode "fr") (JStr "C1") (JStr "100.1")
              [Sample.hello] [Sample.bot_reply "Bonjour"]
              Sample.bare_bot_message (JStr "bot_message") (JStr "Bonjour")
              eq_refl eq_refl eq_refl eq_refl eq_refl eq_refl eq_refl Hres
              eq_refl eq_refl eq_refl eq_refl eq_refl eq_refl eq_refl Hpre)
    as (H1 & _ & H3 & H4 & H5 & _).
  repeat split; assumption.
Defined.

(** ** One translation, at most one post *)

(** C7. For an event that passes the checks on its type and on the type of
    its item, whose emoji resolves to a language, whose thread is fetched
    and whose translation is not found already posted by the duplicate
    check, the handling sends exactly one translation request and
    performs at most one post. *)
Theorem C7_one_translation_at_most_one_post (E : Env) (req : Request)
    (ev item : jsval) (emoji : string) (lang : lang_value)
    (channel ts messages message translation posted : jsval) :
  get_prop (body req) "event" = inr ev ->
  get_prop ev "type" = inr (JStr "reaction_added") ->
  get_prop ev "reaction" = inr (JStr emoji) ->
  get_prop ev "item" = inr item ->
  get_prop item "type" = inr (JStr "message") ->
  resolve E (JStr emoji) = inr (Some lang) ->
  get_prop item "channel" = inr channel ->
  get_prop item "ts" = inr ts ->
  outcome (getMessage E channel ts) = inr messages ->
  get_index0 messages = inr message ->
  outcome (translate_first E message lang) = inr translation ->
  isAlreadyPosted messages translation = inr posted ->
  truthy posted = false ->
  count is_translate (trace (events E req)) = 1 /\
  count is_post (trace (events E req)) <= 1.
Proof.
  intros Hev Hty Hre Hit Hity Hres Hch Hts Hgm Hm Htf Hdup Hfresh.
  rewrite (events_run E req ev item emoji lang Hev Hty Hre Hit Hity Hres).
  rewrite (fetch_and_post_run E item lang emoji channel ts Hch Hts).
  cbv zeta. rewrite Hgm.
  rewrite (postTranslatedMessage_run E messages lang channel emoji message Hm).
  cbv zeta. rewrite Htf, Hdup, Hfresh.
  cbn [trace outcome fst snd app count is_translate is_post].
  rewrite !count_app. cbn [count is_translate is_post].
  rewrite !count_app.
  destruct (getMessage_counts E channel ts) as (Hg1 & Hg2 & _).
  destruct (translate_first_counts E message lang) as (Ht1 & _ & _ & Hone).
  destruct (Hone translation Htf) as [Ht2 _].
  destruct (postMessage_counts E message translation lang channel emoji)
    as (Hp1 & Hp2 & _).
  rewrite Hg1, Hg2, Ht1, Ht2, Hp2.
  destruct (outcome (postMessage E message translation lang channel emoji));
    cbn [count is_translate is_post]; lia.
Qed.

Lemma C7_one_translation_at_most_one_post_witness :
  let E := Sample.world (inr (Sample.replies (JArr [Sample.hello])))
                        (inr (Sample.translated "Konnichiwa")) in
  resolve E (JStr "flag-jp") = inr (Some (LangCode "ja")) /\
  isAlreadyPosted (JArr [Sample.hello]) (JStr "Konnichiwa") = inr JUndef /\
  count is_translate (trace (events E (Sample.callback "flag-jp"))) = 1 /\
  count is_post (trace (events E (Sample.callback "flag-jp"))) <= 1.
Proof.
  split; [vm_compute; reflexivity |]. split; [reflexivity |].
  apply (C7_one_translation_at_most_one_post
           (Sample.world (inr (Sample.replies (JArr [Sample.hello])))
                         (inr (Sample.translated "Konnichiwa")))
           (Sample.callback "flag-jp")
           (Sample.reaction_event "reaction_added" "flag-jp" "message")
           (JObj [("type", JStr "message"); ("channel", JStr "C1"); ("ts", JStr "100.1")])
           "flag-jp" (LangCode "ja") (JStr "C1") (JStr "100.1") (JArr [Sample.hello]) Sample.hello
           (JStr "Konnichiwa") JUndef);
    try reflexivity; vm_compute; reflexivity.
Defined.

(** ** Errors that leave the handler *)

(** C1, on the code.  An authenticated [event_callback] whose thread
    fetch is rejected: [getMessage] awaits the call before its [try], so
    the rejection leaves [getMessage], [events] and the handler; no
    response is set and no error is logged. *)
Theorem C1_fetch_rejection_escapes :
  let E := Sample.world (inl (Rejected (JStr "ECONNRESET")))
                        (inr (Sample.translated "Konnichiwa")) in
  let req := Sample.callback "flag-jp" in
  isVerified E req = true /\
  outcome (module_exports E req) = inl (Rejected (JStr "ECONNRESET")) /\
  count is_error_log (trace (module_exports E req)) = 0 /\
  count is_fetch (trace (module_exports E req)) = 1.
Proof. vm_compute. repeat split. Qed.

(** C5, on the code.  With an absent thread, [messages[0]] throws before
    the [try] of [postTranslatedMessage]: nothing is posted, but the error
    is not logged, it is thrown to the caller.  With an empty thread the
    error arises inside the [try]: it is logged and the step returns. *)
Theorem C5_absent_thread_escapes (E : Env) (lang : lang_value) (channel : jsval)
    (emoji : string) :
  postTranslatedMessage E JUndef lang channel emoji = ([], inl TypeError) /\
  exists e, postTranslatedMessage E (JArr []) lang channel emoji
            = ([ELog (LogErr e)], inr tt).
Proof.
  split; [reflexivity |].
  rewrite (postTranslatedMessage_run E (JArr []) lang channel emoji JUndef eq_refl).
  cbv zeta.
  destruct (translate_first_early E JUndef lang) as [e ->]; [eauto |].
  exists e. reflexivity.
Qed.

(** * Further properties of the code *)

(** ** The two regular expressions *)

(** X1. [/flag-/] matches exactly the names that contain the five
    characters [flag-], wherever they stand. *)
Theorem match_flag_substring (s : string) :
  match_flag s = true <-> exists pre post, s = (pre ++ "flag-" ++ post)%string.
Proof.
  split.
  - induction s as [| c s IH]; [discriminate |].
    intros H. cbn [match_flag] in H. apply orb_true_iff in H as [H | H].
    + apply prefix_flag_inv in H as [rest ->]. exists EmptyString, rest. reflexivity.
    + destruct (IH H) as (pre & post & ->). exists (String c pre), post. reflexivity.
  - intros (pre & post & ->). induction pre as [| c pre IH].
    + destruct post; reflexivity.
    + change (match_flag (String c (pre ++ "flag-" ++ post)) = true).
      cbn [match_flag]. rewrite IH. apply orb_true_r.
Qed.

Lemma take_word_all_word (s : string) : all_word (take_word s) = true.
Proof.
  induction s as [| c s IH]; [reflexivity |].
  cbn [take_word]. destruct (is_word c) eqn:Hc; [| reflexivity].
  cbn [all_word]. rewrite Hc, IH. reflexivity.
Qed.

Lemma take_word_id (s : string) : all_word s = true -> take_word s = s.
Proof.
  induction s as [| c s IH]; [reflexivity |].
  cbn [all_word take_word]. intros H. apply andb_true_iff in H as [-> H].
  rewrite (IH H). reflexivity.
Qed.

Lemma all_word_no_lookahead (s : string) : all_word s = true -> lookahead_flag s = false.
Proof.
  intros H. unfold lookahead_flag.
  destruct (String.prefix "flag-" s) eqn:Hp; [| reflexivity].
  apply prefix_flag_inv in Hp as [rest ->]. cbn in H. discriminate.
Qed.

(** X2. Whatever the second expression matches is a word: it is not
    empty and has word characters only (so never a [-]). *)
Theorem match_token_is_word (prev_word : bool) (s token : string) :
  match_token prev_word s = Some token ->
  token <> EmptyString /\ all_word token = true.
Proof.
  revert prev_word token. induction s as [| c s IH]; intros pw token; [discriminate |].
  cbn [match_token].
  destruct (negb (lookahead_flag (String c s)) && negb pw && is_word c) eqn:Hc.
  - intros [= <-]. apply andb_true_iff in Hc as [_ Hw].
    split; [cbn [take_word]; rewrite Hw; discriminate |].
    apply (take_word_all_word (String c s)).
  - apply IH.
Qed.

Lemma match_token_is_word_witness :
  match_token false "flag-us-ca" = Some "us" /\
  "us" <> EmptyString /\ all_word "us" = true.
Proof.
  split; [reflexivity |].
  exact (match_token_is_word false "flag-us-ca" "us" eq_refl).
Defined.

(** The token of [flag-w], for a word [w]. *)
Lemma match_token_flag_word (w : string) :
  w <> EmptyString -> all_word w = true ->
  match_token false ("flag-" ++ w) = Some w.
Proof.
  intros Hne Hw. destruct w as [| c w]; [congruence |].
  pose proof (all_word_no_lookahead _ Hw) as Hl.
  pose proof Hw as Hw'. cbn [all_word] in Hw'. apply andb_true_iff in Hw' as [Hc _].
  change ("flag-" ++ String c w)%string
    with (String "f" (String "l" (String "a" (String "g" (String "-" (String c w)))))).
  cbn [match_token].
  replace (lookahead_flag
             (String "f" (String "l" (String "a" (String "g" (String "-" (String c w)))))))
    with true by (unfold lookahead_flag; cbn; rewrite Hc; reflexivity).
  cbn [negb andb].
  replace (is_word "f") with true by reflexivity.
  replace (is_word "l") with true by reflexivity.
  replace (is_word "a") with true by reflexivity.
  replace (is_word "g") with true by reflexivity.
  replace (is_word "-") with false by reflexivity.
  rewrite !andb_false_r. cbn [negb andb].
  rewrite Hl, Hc. cbn [negb andb]. rewrite (take_word_id _ Hw). reflexivity.
Qed.

Lemma match_flag_flag_word (w : string) : match_flag ("flag-" ++ w) = true.
Proof. destruct w; reflexivity. Qed.

Lemma all_word_no_flag (w : string) : all_word w = true -> match_flag w = false.
Proof.
  induction w as [| c w IH]; [reflexivity |].
  intros H. cbn [match_flag].
  destruct (String.prefix "flag-" (String c w)) eqn:Hp.
  - apply prefix_flag_inv in Hp as [rest Heq]. rewrite Heq in H. cbn in H. discriminate.
  - cbn [all_word] in H. apply andb_true_iff in H as [_ H]. rewrite (IH H). reflexivity.
Qed.

(** ** Language resolution *)

Lemma resolve_direct (E : Env) (r : string) :
  match_flag r = false ->
  resolve E (JStr r)
  = inr match langcode E !! r with
        | Some code => if String.eqb code "" then None else Some (LangCode code)
        | None => None
        end.
Proof.
  intros Hm. unfold resolve, langcode_get. rewrite Hm.
  destruct (langcode E !! r) as [code |] eqn:Hl.
  - rewrite bool_decide_eq_true_2 by (apply elem_of_dom; eauto).
    cbn [rbind]. rewrite Hl. cbn [lang_truthy].
    destruct (String.eqb code ""); reflexivity.
  - rewrite bool_decide_eq_false_2 by (apply not_elem_of_dom; exact Hl). reflexivity.
Qed.

Lemma resolve_flag (E : Env) (w : string) :
  w <> EmptyString -> all_word w = true ->
  resolve E (JStr ("flag-" ++ w))
  = inr match langcode E !! w with
        | Some code => if String.eqb code "" then None else Some (LangCode code)
        | None => if is_inherited w then Some (Inherited w) else None
        end.
Proof.
  intros Hne Hw. unfold resolve, langcode_get.
  rewrite match_flag_flag_word, (match_token_flag_word w Hne Hw). cbn [rbind].
  destruct (langcode E !! w) as [code |].
  - cbn [lang_truthy]. destruct (String.eqb code ""); reflexivity.
  - destruct (is_inherited w); reflexivity.
Qed.

(** X3. For a non-empty word [w], the bare code [w] resolves to the
    table's own entry of [w], to nothing when [w] is no key or its entry
    is empty.  The flag emoji [flag-w] resolves to the same, except when
    [w] is no key of the table but the name of a property of
    [Object.prototype]: then it resolves to that inherited value.  So the
    two agree whenever [w] is a key or is not such a name. *)
Theorem resolve_flag_and_code (E : Env) (w : string) :
  w <> EmptyString -> all_word w = true ->
  resolve E (JStr w)
  = inr match langcode E !! w with
        | Some code => if String.eqb code "" then None else Some (LangCode code)
        | None => None
        end /\
  resolve E (JStr ("flag-" ++ w))
  = inr match langcode E !! w with
        | Some code => if String.eqb code "" then None else Some (LangCode code)
        | None => if is_inherited w then Some (Inherited w) else None
        end /\
  (is_Some (langcode E !! w) \/ is_inherited w = false ->
   resolve E (JStr ("flag-" ++ w)) = resolve E (JStr w)).
Proof.
  intros Hne Hw.
  pose proof (resolve_direct E w (all_word_no_flag w Hw)) as Hd.
  pose proof (resolve_flag E w Hne Hw) as Hf.
  split; [exact Hd |]. split; [exact Hf |].
  intros H. rewrite Hd, Hf.
  destruct (langcode E !! w) as [code |]; [reflexivity |].
  destruct H as [[code H] | ->]; [discriminate | reflexivity].
Qed.

Lemma resolve_flag_and_code_witness :
  let E := Sample.world (inl TypeError) (inl TypeError) in
  all_word "jp" = true /\
  resolve E (JStr "jp") = inr (Some (LangCode "ja")) /\
  resolve E (JStr "flag-jp") = resolve E (JStr "jp").
Proof.
  split; [reflexivity |].
  destruct (resolve_flag_and_code (Sample.world (inl TypeError) (inl TypeError)) "jp")
    as (Hd & _ & Hsame); [discriminate | reflexivity |].
  split; [vm_compute; reflexivity |].
  apply Hsame. left. vm_compute. eauto.
Defined.

(** X4. Resolution throws exactly on a reaction that is not a string
    (then a TypeError); on a string it always answers, with a language or
    with none: the second [match] of line 91 is never [null]. *)
Theorem resolve_throws_iff_not_string (E : Env) (reaction : jsval) :
  (forall e, resolve E reaction = inl e ->
             e = TypeError /\ forall r, reaction <> JStr r) /\
  (forall r, reaction = JStr r -> exists answer, resolve E reaction = inr answer) /\
  ((forall r, reaction <> JStr r) -> resolve E reaction = inl TypeError).
Proof.
  assert (Hstr : forall r, exists answer, resolve E (JStr r) = inr answer).
  { intros r. unfold resolve. destruct (match_flag r) eqn:Hm.
    - destruct (match_token_after_flag r Hm) as [token ->]. cbn [rbind].
      destruct (langcode_get (langcode E) token) as [lang |]; [| eauto].
      destruct (lang_truthy lang); eauto.
    - destruct (bool_decide (r ∈ dom (langcode E))); cbn [rbind]; [| eauto].
      destruct (langcode_get (langcode E) r) as [lang |]; [| eauto].
      destruct (lang_truthy lang); eauto. }
  split; [| split].
  - intros e He. destruct reaction; try (injection He as <-; split; [reflexivity | discriminate]).
    destruct (Hstr s) as [answer Ha]. rewrite Ha in He. discriminate.
  - intros r ->. apply Hstr.
  - intros Hns. destruct reaction; try reflexivity. destruct (Hns s eq_refl).
Qed.

(** X5. What comes out of the resolution is either a non-empty entry
    that the table holds under the country code, or, on the [flag-] branch
    only, the value inherited from [Object.prototype] under a token that
    is no key of the table. *)
Theorem resolve_from_table_or_prototype (E : Env) (reaction : jsval) (lang : lang_value) :
  resolve E reaction = inr (Some lang) ->
  (exists key code,
      lang = LangCode code /\ code <> EmptyString /\ langcode E !! key = Some code) \/
  (exists r name,
      reaction = JStr r /\ match_flag r = true /\ match_token false r = Some name /\
      lang = Inherited name /\ langcode E !! name = None /\ is_inherited name = true).
Proof.
  destruct reaction; try discriminate. unfold resolve.
  destruct (match_flag s) eqn:Hm.
  - destruct (match_token false s) as [token |] eqn:Ht; cbn [rbind]; [| discriminate].
    unfold langcode_get. destruct (langcode E !! token) as [code |] eqn:Hl.
    + cbn [lang_truthy]. destruct (String.eqb code "") eqn:He; cbn [negb];
        [discriminate |].
      intros [= <-]. left. exists token, code.
      split; [reflexivity |]. split; [intros ->; discriminate | exact Hl].
    + destruct (is_inherited token) eqn:Hi; [| discriminate].
      cbn [lang_truthy]. intros [= <-]. right. exists s, token.
      repeat (split; [first [assumption | reflexivity] |]). exact Hi.
  - destruct (bool_decide (s ∈ dom (langcode E))) eqn:Hd; cbn [rbind]; [| discriminate].
    apply bool_decide_eq_true_1, elem_of_dom in Hd as [code Hl].
    unfold langcode_get. rewrite Hl. cbn [lang_truthy].
    destruct (String.eqb code "") eqn:He; cbn [negb]; [discriminate |].
    intros [= <-]. left. exists s, code.
    split; [reflexivity |]. split; [intros ->; discriminate | exact Hl].
Qed.

Lemma resolve_from_table_or_prototype_witness :
  let E := Sample.world (inl TypeError) (inl TypeError) in
  resolve E (JStr "flag-jp") = inr (Some (LangCode "ja")) /\
  ((exists key code,
       LangCode "ja" = LangCode code /\ code <> EmptyString /\
       langcode E !! key = Some code) \/
   (exists r name,
       JStr "flag-jp" = JStr r /\ match_flag r = true /\
       match_token false r = Some name /\
       LangCode "ja" = Inherited name /\ langcode E !! name = None /\
       is_inherited name = true)).
Proof.
  assert (H : resolve (Sample.world (inl TypeError) (inl TypeError)) (JStr "flag-jp")
              = inr (Some (LangCode "ja"))) by (vm_compute; reflexivity).
  split; [exact H |].
  exact (resolve_from_table_or_prototype _ _ _ H).
Defined.

(** ** The handler as a whole *)

Lemma calls_app (t1 t2 : list event) : calls (t1 ++ t2) = calls t1 ++ calls t2.
Proof.
  induction t1 as [| e t1 IH]; [reflexivity |].
  destruct e; cbn [app calls]; rewrite IH; reflexivity.
Qed.

Lemma calls_quiet (t : list event) : Forall quiet t -> calls t = [].
Proof.
  induction 1 as [| e t [Hs Hn] _ IH]; [reflexivity |].
  destruct e; cbn [calls]; try discriminate. exact IH.
Qed.

Lemma calls_no_network (t : list event) :
  Forall (fun e => is_network e = false) t -> Forall (fun e => is_sleep e = false) t ->
  calls t = [].
Proof.
  intros Hn Hs. apply calls_quiet. rewrite Forall_forall in *.
  intros e He. split; [apply Hs | apply Hn]; exact He.
Qed.

Section Calls.

Variable E : Env.

Lemma calls_getMessage (channel ts : jsval) :
  calls (trace (getMessage E channel ts)) = [KFetch].
Proof.
  unfold getMessage, axios_post_replies. rewrite bind_call.
  destruct (conversations_replies E _) as [e | result]; [reflexivity |].
  destruct (get_prop result "data") as [e | data]; rewrite bind_lift; [reflexivity |].
  destruct (get_prop data "messages"); reflexivity.
Qed.

Lemma calls_translate_first (message : jsval) (lang : lang_value) :
  let tf := translate_first E message lang in
  (calls (trace tf) = [] /\ exists e, outcome tf = inl e) \/
  calls (trace tf) = [KTranslate].
Proof.
  destruct (locationPath E (GOOGLE_PROJECT_ID E) (GOOGLE_LOCATION E))
    as [e | path] eqn:Hpath.
  - destruct (translate_first_early E message lang) as [e' Hearly].
    { intros path Hp. rewrite Hpath in Hp. discriminate. }
    left. cbv zeta. rewrite Hearly. eauto.
  - destruct (get_prop message "text") as [e | text] eqn:Htext.
    + destruct (translate_first_early E message lang) as [e' Hearly].
      { intros _ _. rewrite Htext. eauto. }
      left. cbv zeta. rewrite Hearly. eauto.
    + right. cbv zeta.
      rewrite (translate_first_run E message lang path text Hpath Htext).
      destruct (translateText E (request_for path text lang)) as [e | reply];
        [| destruct (destructure_first reply) as [e | response]]; reflexivity.
Qed.

Lemma calls_postMessage (message translation : jsval) (lang : lang_value)
    (channel : jsval) (emoji : string) :
  let t := trace (postMessage E message translation lang channel emoji) in
  calls t = [] \/ calls t = [KPost].
Proof.
  pose proof (sleep_free_postMessage E message translation lang channel emoji) as Hs.
  destruct (postMessage_cases E message translation lang channel emoji)
    as [-> | (thread_ts & ts & text & _ & _ & _ & tail & r & Hrun & Htail)].
  - left. reflexivity.
  - right. rewrite Hrun in *. cbn [trace fst calls] in *. f_equal.
    apply calls_no_network; [exact Htail |]. inversion Hs; assumption.
Qed.

Lemma calls_postTranslatedMessage (messages : jsval) (lang : lang_value)
    (channel : jsval) (emoji : string) :
  In (calls (trace (postTranslatedMessage E messages lang channel emoji)))
     [[]; [KTranslate]; [KTranslate; KPost]].
Proof.
  destruct (get_index0 messages) as [e | message] eqn:Hm.
  - unfold postTranslatedMessage. rewrite Hm, bind_lift. left. reflexivity.
  - rewrite (postTranslatedMessage_run E messages lang channel emoji message Hm).
    cbv zeta.
    destruct (calls_translate_first message lang) as [[Hc [e He]] | Hc].
    + cbv zeta in He. rewrite He. cbn [trace fst]. rewrite calls_app, Hc.
      left. reflexivity.
    + destruct (outcome (translate_first E message lang)) as [e | translation].
      { cbn [trace fst]. rewrite calls_app, Hc. right; left. reflexivity. }
      destruct (isAlreadyPosted messages translation) as [e | posted].
      { cbn [trace fst]. rewrite calls_app, Hc. right; left. reflexivity. }
      destruct (truthy posted);
        [cbn [trace fst]; rewrite Hc; right; left; reflexivity |].
      cbn [trace fst]. rewrite !calls_app, Hc.
      assert (Hlog : calls (match outcome (postMessage E message translation lang
                                             channel emoji) with
                            | inl e => [ELog (LogErr e)]
                            | inr _ => []
                            end) = []).
      { destruct (outcome (postMessage E message translation lang channel emoji));
          reflexivity. }
      rewrite Hlog, app_nil_r.
      destruct (calls_postMessage message translation lang channel emoji) as [-> | ->];
        [right; left | right; right; left]; reflexivity.
Qed.

Lemma calls_events (req : Request) :
  In (calls (trace (events E req)))
     [[]; [KSleep; KFetch]; [KSleep; KFetch; KTranslate];
      [KSleep; KFetch; KTranslate; KPost]].
Proof.
  destruct (events_cases E req)
    as [Hq | (ev & item & emoji & lang & _ & _ & _ & _ & Hity & _ & ->)].
  - rewrite (calls_quiet _ Hq). left. reflexivity.
  - destruct (get_prop_defined item "type" "channel" _ Hity) as [channel Hch].
    destruct (get_prop_defined item "type" "ts" _ Hity) as [ts Hts].
    rewrite (fetch_and_post_run E item lang emoji channel ts Hch Hts). cbv zeta.
    cbn [trace fst app calls].
    destruct (outcome (getMessage E channel ts)) as [e | messages].
    + cbn [trace fst]. rewrite calls_getMessage. right; left. reflexivity.
    + cbn [trace fst]. rewrite calls_app, calls_getMessage. cbn [app calls].
      pose proof (calls_postTranslatedMessage messages lang channel emoji) as Hp.
      destruct Hp as [<- | [<- | [<- | []]]]; cbn; auto.
Qed.

Lemma module_exports_trace (req : Request) :
  trace (module_exports E req) = [ELog LogProcessed; ELog (LogRequest req)] \/
  (get_prop (body req) "type" = inr (JStr "event_callback") /\
   isVerified E req = true /\
   module_exports E req
   = (ELog LogProcessed :: ELog (LogRequest req) :: trace (events E req),
      match outcome (events E req) with
      | inl e => inl e
      | inr result => inr {| status := None; res_body := result |}
      end)).
Proof.
  unfold module_exports, log. rewrite !bind_emit. cbn [trace outcome fst snd].
  destruct (get_prop (body req) "type") as [e | type] eqn:Hty; rewrite bind_lift;
    [left; reflexivity |].
  destruct (is_str type "url_verification").
  { destruct (get_prop (body req) "challenge"); rewrite bind_lift; left; reflexivity. }
  destruct (is_str type "event_callback") eqn:Hcb; [| left; reflexivity].
  apply is_str_true in Hcb. subst type.
  destruct (isVerified E req); cbn [negb]; [| left; reflexivity].
  right. split; [reflexivity |]. split; [reflexivity |].
  destruct (outcome (events E req)) as [e | result] eqn:Hev.
  - rewrite (bind_throws _ _ e Hev). reflexivity.
  - rewrite (bind_returns _ _ result Hev). cbn [trace outcome fst snd ret].
    rewrite app_nil_r. reflexivity.
Qed.

End Calls.

(** X6. Whatever the request, the handler performs one of four sequences
    of delay and remote calls: none at all; the delay and the thread
    fetch; these and the translation request; these and the post.  So a
    post is always preceded by exactly one translation request, one
    thread fetch and one delay, in that order, and nothing is done
    twice. *)
Theorem handler_call_sequence (E : Env) (req : Request) :
  In (calls (trace (module_exports E req)))
     [[]; [KSleep; KFetch]; [KSleep; KFetch; KTranslate];
      [KSleep; KFetch; KTranslate; KPost]].
Proof.
  destruct (module_exports_trace E req) as [-> | (_ & _ & ->)].
  - left. reflexivity.
  - cbn [trace fst calls]. apply calls_events.
Qed.

(** X7. Unless the request is an [event_callback] that passes the
    signature check, the handler does nothing but write its two log
    lines: no delay, no remote call. *)
Theorem handler_silent_unless_verified_callback (E : Env) (req : Request) :
  get_prop (body req) "type" <> inr (JStr "event_callback") \/ isVerified E req = false ->
  trace (module_exports E req) = [ELog LogProcessed; ELog (LogRequest req)].
Proof.
  intros Hnot.
  destruct (module_exports_trace E req) as [H | (Hty & Hsig & _)]; [exact H |].
  destruct Hnot as [Hnot | Hnot]; [destruct (Hnot Hty) | congruence].
Qed.

Lemma handler_silent_unless_verified_callback_witness :
  let E := Sample.world (inl TypeError) (inl TypeError) in
  let req := {| body := JObj [("type", JStr "url_verification");
                              ("challenge", JStr "abc")];
                headers := JUndef |} in
  trace (module_exports E req) = [ELog LogProcessed; ELog (LogRequest req)].
Proof.
  apply (handler_silent_unless_verified_callback
           (Sample.world (inl TypeError) (inl TypeError))).
  left. discriminate.
Defined.

(** ** What a post tells *)

Lemma count_zero_not_in (p : event -> bool) (t : list event) (e : event) :
  count p t = 0 -> p e = true -> ~ In e t.
Proof.
  intros Hc He Hin. apply count_zero_Forall in Hc. rewrite Forall_forall in Hc.
  apply list_elem_of_In in Hin. specialize (Hc e Hin). cbv beta in Hc. congruence.
Qed.

Lemma post_in_postTranslatedMessage (E : Env) (messages : jsval) (lang : lang_value)
    (channel : jsval) (emoji : string) (args : PostArgs) :
  In (EPost args) (trace (postTranslatedMessage E messages lang channel emoji)) ->
  exists message translation posted thread_ts ts text,
    get_index0 messages = inr message /\
    outcome (translate_first E message lang) = inr translation /\
    isAlreadyPosted messages translation = inr posted /\
    truthy posted = false /\
    get_prop message "thread_ts" = inr thread_ts /\
    get_prop message "ts" = inr ts /\
    get_prop message "text" = inr text /\
    args = post_args E thread_ts ts text translation lang channel emoji.
Proof.
  destruct (get_index0 messages) as [e | message] eqn:Hm.
  { unfold postTranslatedMessage. rewrite Hm, bind_lift. intros []. }
  rewrite (postTranslatedMessage_run E messages lang channel emoji message Hm).
  cbv zeta.
  destruct (translate_first_counts E message lang) as (Hp & _).
  assert (Hno : ~ In (EPost args) (trace (translate_first E message lang)))
    by (apply (count_zero_not_in is_post); [exact Hp | reflexivity]).
  assert (Hlog : forall e, ~ In (EPost args) [ELog (LogErr e)])
    by (intros e [[=] | []]).
  destruct (outcome (translate_first E message lang)) as [e | translation] eqn:Htf.
  { cbn [trace fst]. intros Hin. apply in_app_or in Hin as [Hin | Hin];
      [destruct (Hno Hin) | destruct (Hlog _ Hin)]. }
  destruct (isAlreadyPosted messages translation) as [e | posted] eqn:Hdup.
  { cbn [trace fst]. intros Hin. apply in_app_or in Hin as [Hin | Hin];
      [destruct (Hno Hin) | destruct (Hlog _ Hin)]. }
  destruct (truthy posted) eqn:Hposted; [intros Hin; destruct (Hno Hin) |].
  cbn [trace fst]. intros Hin.
  apply in_app_or in Hin as [Hin | Hin]; [destruct (Hno Hin) |].
  apply in_app_or in Hin as [Hin | Hin].
  - destruct (posted_args E message translation lang channel emoji args Hin)
      as (thread_ts & ts & text & Htts & Hts & Htext & ->).
    exists message, translation, posted, thread_ts, ts, text.
    repeat (split; [first [assumption | reflexivity] |]). reflexivity.
  - destruct (outcome (postMessage E message translation lang channel emoji));
      [destruct (Hlog _ Hin) | destruct Hin].
Qed.

(** X8. A reply is posted only when a translation came back and the
    duplicate check answered "not posted" for that very translation; the
    reply then carries that translation, goes to the channel the step was
    given and is anchored and labelled from the first message of the
    thread. *)
Theorem post_only_after_fresh_translation (E : Env) (messages : jsval) (lang : lang_value)
    (channel : jsval) (emoji : string) (args : PostArgs) :
  In (EPost args) (trace (postTranslatedMessage E messages lang channel emoji)) ->
  exists message translation thread_ts ts text,
    get_index0 messages = inr message /\
    outcome (translate_first E message lang) = inr translation /\
    isAlreadyPosted messages translation = inr JUndef /\
    get_prop message "thread_ts" = inr thread_ts /\
    get_prop message "ts" = inr ts /\
    get_prop message "text" = inr text /\
    args = post_args E thread_ts ts text translation lang channel emoji.
Proof.
  intros Hin.
  destruct (post_in_postTranslatedMessage E messages lang channel emoji args Hin)
    as (message & translation & posted & thread_ts & ts & text
        & Hm & Htf & Hdup & Hfresh & Htts & Hts & Htext & Hargs).
  exists message, translation, thread_ts, ts, text.
  repeat (split; [first [assumption | reflexivity] |]).
  split; [| repeat (split; [assumption |]); exact Hargs].
  destruct messages; try discriminate Hdup.
  destruct (isAlreadyPosted_values xs translation) as [H | [H | H]];
    rewrite H in Hdup; try discriminate; [| exact H].
  injection Hdup as <-. discriminate Hfresh.
Qed.

Lemma post_only_after_fresh_translation_witness :
  let E := Sample.world (inl TypeError) (inr (Sample.translated "Konnichiwa")) in
  let args := post_args E JUndef (JStr "100.1") (JStr "Hello") (JStr "Konnichiwa")
                (LangCode "ja") (JStr "C1") "flag-jp" in
  In (EPost args)
     (trace (postTranslatedMessage E (JArr [Sample.hello]) (LangCode "ja") (JStr "C1") "flag-jp")) /\
  isAlreadyPosted (JArr [Sample.hello]) (JStr "Konnichiwa") = inr JUndef.
Proof.
  assert (Hin : In (EPost (post_args
                             (Sample.world (inl TypeError)
                                (inr (Sample.translated "Konnichiwa")))
                             JUndef (JStr "100.1") (JStr "Hello") (JStr "Konnichiwa")
                             (LangCode "ja") (JStr "C1") "flag-jp"))
                   (trace (postTranslatedMessage
                             (Sample.world (inl TypeError)
                                (inr (Sample.translated "Konnichiwa")))
                             (JArr [Sample.hello]) (LangCode "ja") (JStr "C1") "flag-jp")))
    by (vm_compute; auto).
  split; [exact Hin |].
  destruct (post_only_after_fresh_translation _ _ _ _ _ _ Hin)
    as (message & translation & thread_ts & ts & text & Hm & Htf & Hdup & _).
  injection Hm as <-. injection Htf as <-. exact Hdup.
Defined.

(** ** What the handler answers *)

Lemma returns_undefined_bind {A : Type} (m : M A) (k : A -> M jsval) :
  (forall a v, outcome (k a) = inr v -> v = JUndef) ->
  forall v, outcome (bind m k) = inr v -> v = JUndef.
Proof.
  intros Hk v. destruct (outcome m) as [e | a] eqn:Hm.
  - rewrite (bind_throws m k e Hm). discriminate.
  - rewrite (bind_returns m k a Hm). apply Hk.
Qed.

Ltac undefined_walk :=
  repeat first
    [ apply returns_undefined_bind; intros ?
    | match goal with
      | |- forall v, outcome (ret JUndef) = inr v -> v = JUndef =>
          intros ? [= <-]; reflexivity
      | |- forall v, outcome (if ?b then _ else _) = inr v -> v = JUndef => destruct b
      | |- forall v, outcome (match ?x with _ => _ end) = inr v -> v = JUndef =>
          destruct x
      end ].

Lemma events_returns_undefined (E : Env) (req : Request) (v : jsval) :
  outcome (events E req) = inr v -> v = JUndef.
Proof. revert v. unfold events, fetch_and_post. undefined_walk. Qed.

(** X9. On an [event_callback] that passed the signature check the
    handler either returns a response with no status and an undefined
    body, whatever happened to the event (dropped, translated, duplicate,
    or a failure that was caught), or throws the very error that [events]
    threw. *)
Theorem verified_callback_response (E : Env) (req : Request) :
  get_prop (body req) "type" = inr (JStr "event_callback") ->
  isVerified E req = true ->
  outcome (module_exports E req) = inr {| status := None; res_body := JUndef |} \/
  exists e, outcome (events E req) = inl e /\ outcome (module_exports E req) = inl e.
Proof.
  intros Hty Hsig.
  unfold module_exports, log. rewrite !bind_emit. cbn [outcome snd].
  rewrite Hty, bind_lift.
  replace (is_str (JStr "event_callback") "url_verification") with false by reflexivity.
  replace (is_str (JStr "event_callback") "event_callback") with true by reflexivity.
  rewrite Hsig. cbn [negb].
  destruct (outcome (events E req)) as [e | result] eqn:Hev.
  - right. exists e. rewrite (bind_throws _ _ e Hev). split; reflexivity.
  - left. rewrite (bind_returns _ _ result Hev). cbn [outcome snd ret].
    rewrite (events_returns_undefined E req result Hev). reflexivity.
Qed.

Lemma verified_callback_response_witness :
  let E := Sample.world (inr (Sample.replies (JArr [Sample.hello])))
                        (inr (Sample.translated "Konnichiwa")) in
  let req := Sample.callback "flag-jp" in
  get_prop (body req) "type" = inr (JStr "event_callback") /\
  isVerified E req = true /\
  (outcome (module_exports E req) = inr {| status := None; res_body := JUndef |} \/
   exists e, outcome (events E req) = inl e /\ outcome (module_exports E req) = inl e).
Proof.
  split; [reflexivity |]. split; [reflexivity |].
  exact (verified_callback_response
           (Sample.world (inr (Sample.replies (JArr [Sample.hello])))
                         (inr (Sample.translated "Konnichiwa")))
           (Sample.callback "flag-jp") eq_refl eq_refl).
Defined.

(** ** The thread fetch *)

(** X10. [getMessage] sends exactly one fetch and nothing else remote,
    in each of its three outcomes.  When the call to the chat platform is
    rejected it throws that error, with nothing logged; it throws in no
    other case.  When the call answers, a reply whose [data.messages]
    cannot be read (the reply or its [data] is null or undefined) is
    logged and gives [undefined]; otherwise [data.messages] is returned
    as it is, [undefined] if the field is missing. *)
Theorem getMessage_outcomes (E : Env) (channel ts : jsval) :
  let args := {| f_token := SLACK_ACCESS_TOKEN E; f_channel := channel; f_ts := ts;
                 f_limit := 1; f_inclusive := true |} in
  getMessage E channel ts
  = match conversations_replies E args with
    | inl e => ([EFetch args], inl e)
    | inr result =>
        match (data <-? get_prop result "data" ;; get_prop data "messages") with
        | inl e => ([EFetch args; ELog (LogErr e)], inr JUndef)
        | inr messages => ([EFetch args], inr messages)
        end
    end /\
  (forall e, outcome (getMessage E channel ts) = inl e <->
             conversations_replies E args = inl e).
Proof.
  cbv zeta. unfold getMessage, axios_post_replies. rewrite bind_call.
  destruct (conversations_replies E _) as [e0 | result].
  - split; [reflexivity |]. intros e. cbn [outcome snd]. reflexivity.
  - assert (Hrun : forall k : M jsval,
               k = try_catch
                     (data <- lift (get_prop result "data");;
                      lift (get_prop data "messages"))
                     (fun e => log (LogErr e);;; ret JUndef) ->
               k = match (data <-? get_prop result "data" ;; get_prop data "messages") with
                   | inl e => ([ELog (LogErr e)], inr JUndef)
                   | inr messages => ([], inr messages)
                   end).
    { intros k ->. destruct (get_prop result "data") as [e | data]; rewrite bind_lift;
        [reflexivity |].
      cbn [rbind]. destruct (get_prop data "messages"); reflexivity. }
    rewrite (Hrun _ eq_refl).
    destruct (data <-? get_prop result "data" ;; get_prop data "messages");
      cbn [trace outcome fst snd]; (split; [reflexivity |]);
      intros err; split; discriminate.
Qed.

(** ** Failures inside the translate-and-post step *)

Section Failures.

Variable E : Env.

Lemma translate_first_no_error_log (message : jsval) (lang : lang_value) :
  count is_error_log (trace (translate_first E message lang)) = 0.
Proof.
  apply count_zero_Forall.
  unfold translate_first, translationClient_translateText, log. walk; reflexivity.
Qed.

Lemma postMessage_error_log (message translation : jsval) (lang : lang_value)
    (channel : jsval) (emoji : string) :
  let pm := postMessage E message translation lang channel emoji in
  match outcome pm with
  | inl _ => count is_error_log (trace pm) = 0
  | inr _ => count is_error_log (trace pm) <= 1
  end.
Proof.
  cbv zeta.
  destruct (get_prop message "thread_ts") as [e | thread_ts] eqn:Htts.
  - unfold postMessage. rewrite Htts, bind_lift. reflexivity.
  - destruct (get_prop_defined message "thread_ts" "ts" _ Htts) as [ts Hts].
    destruct (get_prop_defined message "thread_ts" "text" _ Htts) as [text Htext].
    rewrite (postMessage_run E _ translation lang channel emoji _ _ _ Htts Hts Htext).
    cbv zeta. destruct (chat_postMessage E _) as [e | result]; [reflexivity |].
    destruct (get_prop result "data"); cbn; lia.
Qed.

End Failures.

(** X11. Once [messages[0]] has been read, nothing leaves
    [postTranslatedMessage]: it returns normally whatever fails after
    that (the path, the translation, the reply's shape, the duplicate
    check, the post), and writes at most one error line.  If
    [messages[0]] itself throws, that error leaves the function with
    nothing done. *)
Theorem postTranslatedMessage_swallows (E : Env) (messages : jsval) (lang : lang_value)
    (channel : jsval) (emoji : string) :
  match get_index0 messages with
  | inl e => postTranslatedMessage E messages lang channel emoji = ([], inl e)
  | inr _ =>
      outcome (postTranslatedMessage E messages lang channel emoji) = inr tt /\
      count is_error_log
        (trace (postTranslatedMessage E messages lang channel emoji)) <= 1
  end.
Proof.
  destruct (get_index0 messages) as [e | message] eqn:Hm.
  - unfold postTranslatedMessage. rewrite Hm, bind_lift. reflexivity.
  - rewrite (postTranslatedMessage_run E messages lang channel emoji message Hm).
    cbv zeta.
    pose proof (translate_first_no_error_log E message lang) as Htf.
    destruct (outcome (translate_first E message lang)) as [e | translation].
    { cbn [trace outcome fst snd]. rewrite count_app, Htf. split; [reflexivity | cbn; lia]. }
    destruct (isAlreadyPosted messages translation) as [e | posted].
    { cbn [trace outcome fst snd]. rewrite count_app, Htf. split; [reflexivity | cbn; lia]. }
    destruct (truthy posted).
    { cbn [trace outcome fst snd]. rewrite Htf. split; [reflexivity | lia]. }
    cbn [trace outcome fst snd]. rewrite !count_app, Htf.
    pose proof (postMessage_error_log E message translation lang channel emoji) as Hpm.
    cbv zeta in Hpm.
    destruct (outcome (postMessage E message translation lang channel emoji));
      cbv beta iota in Hpm; cbn [count is_error_log];
      (split; [reflexivity | lia]).
Qed.

(** X12. When the translation fails (the client rejects, or its reply
    does not have the expected shape), the error is logged right after
    what [translate_first] did, nothing is posted and the step returns
    normally. *)
Theorem translation_failure_logged_not_posted (E : Env) (messages message : jsval)
    (lang : lang_value) (channel : jsval) (emoji : string) (e : error) :
  get_index0 messages = inr message ->
  outcome (translate_first E message lang) = inl e ->
  postTranslatedMessage E messages lang channel emoji
  = (trace (translate_first E message lang) ++ [ELog (LogErr e)], inr tt) /\
  count is_post (trace (postTranslatedMessage E messages lang channel emoji)) = 0.
Proof.
  intros Hm Htf.
  rewrite (postTranslatedMessage_run E messages lang channel emoji message Hm).
  cbv zeta. rewrite Htf. split; [reflexivity |].
  cbn [trace fst]. rewrite count_app.
  destruct (translate_first_counts E message lang) as (-> & _). reflexivity.
Qed.

Lemma translation_failure_logged_not_posted_witness :
  let E := Sample.world (inl TypeError) (inl (Rejected (JStr "quota"))) in
  outcome (translate_first E Sample.hello (LangCode "ja")) = inl (Rejected (JStr "quota")) /\
  postTranslatedMessage E (JArr [Sample.hello]) (LangCode "ja") (JStr "C1") "jp"
  = (trace (translate_first E Sample.hello (LangCode "ja"))
     ++ [ELog (LogErr (Rejected (JStr "quota")))], inr tt) /\
  count is_post
    (trace (postTranslatedMessage E (JArr [Sample.hello]) (LangCode "ja") (JStr "C1") "jp")) = 0.
Proof.
  split; [reflexivity |].
  exact (translation_failure_logged_not_posted
           (Sample.world (inl TypeError) (inl (Rejected (JStr "quota"))))
           (JArr [Sample.hello]) Sample.hello (LangCode "ja") (JStr "C1") "jp"
           (Rejected (JStr "quota")) eq_refl eq_refl).
Defined.

(** ** The duplicate check and the order of the thread *)

Lemma forEach_scannable (t : jsval) (ms : list jsval) :
  Forall (scannable t) ms ->
  forEach (check_message t) false ms = inr (existsb (sets_flag t) ms).
Proof.
  induction 1 as [| m ms [b Hm] _ IH]; [reflexivity |].
  cbn [forEach existsb]. unfold sets_flag at 1. rewrite Hm. cbn [rbind].
  destruct b; [apply forEach_flag_set | exact IH].
Qed.

Lemma existsb_Permutation (f : jsval -> bool) (l l' : list jsval) :
  Permutation l l' -> existsb f l = existsb f l'.
Proof.
  induction 1 as [| x l l' _ IH | x y l | l l' l'' _ IH1 _ IH2]; cbn [existsb].
  - reflexivity.
  - rewrite IH. reflexivity.
  - destruct (f x), (f y); reflexivity.
  - rewrite IH1. exact IH2.
Qed.

Lemma sets_flag_prior_post (t m : jsval) : sets_flag t m = true <-> prior_post t m.
Proof.
  rewrite prior_post_check. unfold sets_flag.
  destruct (check_message t false m) as [e | [|]]; split; congruence.
Qed.

(** X13. On a thread on each message of which line 171 can be evaluated
    (every message with a subtype has a first attachment, and no entry is
    null), the duplicate check returns [true] if some message has a
    subtype and a first attachment whose text is the translation, and
    [undefined] if none has; and it returns the same in whatever order
    the messages are. *)
Theorem isAlreadyPosted_order_independent (t : jsval) (ms ms' : list jsval) :
  Forall checkable ms -> Permutation ms ms' ->
  ((isAlreadyPosted (JArr ms) t = inr (JBool true) /\
    exists m, In m ms /\ prior_post t m)
   \/
   (isAlreadyPosted (JArr ms) t = inr JUndef /\
    forall m, In m ms -> ~ prior_post t m)) /\
  isAlreadyPosted (JArr ms') t = isAlreadyPosted (JArr ms) t.
Proof.
  intros Hc Hperm.
  assert (Hs : Forall (scannable t) ms).
  { eapply Forall_impl; [exact Hc |]. intros x. apply checkable_scannable. }
  assert (Hs' : Forall (scannable t) ms').
  { rewrite Forall_forall in *. intros x Hx. apply Hs.
    apply list_elem_of_In. apply list_elem_of_In in Hx.
    eapply Permutation_in; [apply Permutation_sym; exact Hperm | exact Hx]. }
  unfold isAlreadyPosted.
  rewrite (forEach_scannable t ms Hs), (forEach_scannable t ms' Hs').
  rewrite <- (existsb_Permutation (sets_flag t) ms ms' Hperm). cbn [rbind].
  split; [| reflexivity].
  destruct (existsb (sets_flag t) ms) eqn:He.
  - left. split; [reflexivity |].
    apply existsb_exists in He as (m & Hin & Hm).
    exists m. split; [exact Hin | apply sets_flag_prior_post; exact Hm].
  - right. split; [reflexivity |]. intros m Hin Hm.
    apply sets_flag_prior_post in Hm.
    assert (Ht : existsb (sets_flag t) ms = true)
      by (apply existsb_exists; exists m; split; assumption).
    congruence.
Qed.

Lemma isAlreadyPosted_order_independent_witness :
  let ms := [Sample.hello; Sample.bot_reply "Bonjour"] in
  let ms' := [Sample.bot_reply "Bonjour"; Sample.hello] in
  Forall checkable ms /\
  Permutation ms ms' /\
  isAlreadyPosted (JArr ms') (JStr "Bonjour") = isAlreadyPosted (JArr ms) (JStr "Bonjour").
Proof.
  assert (Hs : Forall checkable [Sample.hello; Sample.bot_reply "Bonjour"]).
  { constructor.
    - exists JUndef. split; [reflexivity | discriminate].
    - constructor; [| constructor].
      exists (JStr "bot_message"). split; [reflexivity |]. intros _.
      exists (JArr [JObj [("text", JStr "Bonjour")]]), (JObj [("text", JStr "Bonjour")]),
        (JStr "Bonjour").
      repeat split. }
  assert (Hp : Permutation [Sample.hello; Sample.bot_reply "Bonjour"]
                           [Sample.bot_reply "Bonjour"; Sample.hello])
    by apply perm_swap.
  split; [exact Hs |]. split; [exact Hp |].
  exact (proj2 (isAlreadyPosted_order_independent (JStr "Bonjour") _ _ Hs Hp)).
Defined.

(** ** A thread without bot replies *)

Lemma forEach_no_subtype (t : jsval) (ms : list jsval) :
  Forall (fun m => exists s, get_prop m "subtype" = inr s /\ truthy s = false) ms ->
  forEach (check_message t) false ms = inr false.
Proof.
  induction 1 as [| m ms (s & Hs & Hf) _ IH]; [reflexivity |].
  cbn [forEach]. unfold check_message at 1. cbn [negb]. rewrite Hs. cbn [rbind].
  rewrite Hf. cbn [rbind]. exact IH.
Qed.

(** X14. When no message of the fetched thread has a subtype and the
    translation of the first message comes back, exactly one reply is
    posted, and it is the one [postMessage] builds from the first message
    and that translation. *)
Theorem fresh_thread_posts_once (E : Env) (ms : list jsval) (translation : jsval)
    (lang : lang_value) (channel : jsval) (emoji : string) :
  Forall (fun m => exists s, get_prop m "subtype" = inr s /\ truthy s = false) ms ->
  outcome (translate_first E (hd JUndef ms) lang) = inr translation ->
  let run := postTranslatedMessage E (JArr ms) lang channel emoji in
  count is_post (trace run) = 1 /\
  exists thread_ts ts text,
    get_prop (hd JUndef ms) "thread_ts" = inr thread_ts /\
    get_prop (hd JUndef ms) "ts" = inr ts /\
    get_prop (hd JUndef ms) "text" = inr text /\
    In (EPost (post_args E thread_ts ts text translation lang channel emoji))
       (trace run).
Proof.
  intros Hms Htf run. subst run.
  rewrite (postTranslatedMessage_run E (JArr ms) lang channel emoji (hd JUndef ms) eq_refl).
  cbv zeta. rewrite Htf. unfold isAlreadyPosted.
  rewrite (forEach_no_subtype translation ms Hms). cbn [rbind truthy].
  destruct (translate_first_counts E (hd JUndef ms) lang) as (Hp & _ & _ & Hone).
  destruct (Hone translation Htf) as (_ & path & text & _ & Htext).
  destruct (get_prop_defined _ "text" "thread_ts" _ Htext) as [thread_ts Htts].
  destruct (get_prop_defined _ "text" "ts" _ Htext) as [ts Hts].
  pose proof (postMessage_run E (hd JUndef ms) translation lang channel emoji
                thread_ts ts text Htts Hts Htext) as Hrun.
  cbv zeta in Hrun.
  set (args := post_args E thread_ts ts text translation lang channel emoji) in *.
  assert (Hpm : exists tail,
             trace (postMessage E (hd JUndef ms) translation lang channel emoji)
             = EPost args :: tail /\ count is_post tail = 0).
  { rewrite Hrun. destruct (chat_postMessage E args) as [e | result].
    - exists []. split; reflexivity.
    - eexists. split; [reflexivity |]. destruct (get_prop result "data"); reflexivity. }
  destruct Hpm as (tail & Htrace & Htail).
  cbn [trace fst]. rewrite !count_app, Hp, Htrace. cbn [count is_post]. rewrite Htail.
  split.
  - destruct (outcome (postMessage E (hd JUndef ms) translation lang channel emoji));
      reflexivity.
  - exists thread_ts, ts, text. repeat (split; [assumption |]).
    apply in_or_app. right. apply in_or_app. left. left. reflexivity.
Qed.

Lemma fresh_thread_posts_once_witness :
  let E := Sample.world (inl TypeError) (inr (Sample.translated "Konnichiwa")) in
  outcome (translate_first E Sample.hello (LangCode "ja")) = inr (JStr "Konnichiwa") /\
  count is_post
    (trace (postTranslatedMessage E (JArr [Sample.hello]) (LangCode "ja") (JStr "C1") "flag-jp")) = 1.
Proof.
  split; [reflexivity |].
  refine (proj1 (fresh_thread_posts_once
                   (Sample.world (inl TypeError) (inr (Sample.translated "Konnichiwa")))
                   [Sample.hello] (JStr "Konnichiwa") (LangCode "ja") (JStr "C1") "flag-jp"
                   _ eq_refl)).
  constructor; [| constructor]. exists JUndef. split; reflexivity.
Defined.

(** ** The replies of the bot, seen again in the thread *)

(** X15. The duplicate check returns [true] for a string translation on
    a thread that holds, after messages on which line 171 can be
    evaluated, a message with a subtype whose first attachment is the
    attachment [postMessage] builds for that translation.  It returns
    [undefined] for every string on a thread whose messages with a
    subtype all have the "not supported" attachment as their first one:
    that reply, which has no text, does not stop a later post. *)
Theorem own_replies_in_thread (s emoji : string) (lang : lang_value) (text : jsval)
    (pre post : list jsval) (m subtype : jsval) (others : list jsval) :
  Forall checkable pre ->
  get_prop m "subtype" = inr subtype ->
  truthy subtype = true ->
  get_prop m "attachments"
  = inr (JArr (translated_attachment emoji lang (JStr s) text :: others)) ->
  isAlreadyPosted (JArr (pre ++ m :: post)) (JStr s) = inr (JBool true) /\
  (forall ms,
      Forall (fun x => exists sub,
                  get_prop x "subtype" = inr sub /\
                  (truthy sub = true ->
                   exists rest,
                     get_prop x "attachments"
                     = inr (JArr (unsupported_attachment :: rest)))) ms ->
      isAlreadyPosted (JArr ms) (JStr s) = inr JUndef).
Proof.
  intros Hpre Hsub Htruthy Hatt. split.
  - unfold isAlreadyPosted.
    rewrite (forEach_reaches_match (JStr s) m pre post); [reflexivity | |].
    + eapply Forall_impl; [exact Hpre |]. intros x. apply checkable_scannable.
    + unfold check_message. cbn [negb]. rewrite Hsub. cbn [rbind].
      rewrite Htruthy, Hatt. cbn. rewrite String.eqb_refl. reflexivity.
  - intros ms Hms. unfold isAlreadyPosted.
    assert (H : forEach (check_message (JStr s)) false ms = inr false).
    { induction Hms as [| x ms (sub & Hs & Hrest) _ IH]; [reflexivity |].
      cbn [forEach]. unfold check_message at 1. cbn [negb]. rewrite Hs. cbn [rbind].
      destruct (truthy sub); [| exact IH].
      destruct (Hrest eq_refl) as [rest ->]. cbn. exact IH. }
    rewrite H. reflexivity.
Qed.

Lemma own_replies_in_thread_witness :
  let m := JObj [("subtype", JStr "bot_message");
                 ("attachments",
                  JArr [translated_attachment "flag-fr" (LangCode "fr") (JStr "Bonjour")
                          (JStr "Hello")])] in
  get_prop m "subtype" = inr (JStr "bot_message") /\
  isAlreadyPosted (JArr [Sample.hello; m]) (JStr "Bonjour") = inr (JBool true).
Proof.
  split; [reflexivity |].
  refine (proj1 (own_replies_in_thread "Bonjour" "flag-fr" (LangCode "fr") (JStr "Hello")
                   [Sample.hello] []
                   (JObj [("subtype", JStr "bot_message");
                          ("attachments",
                           JArr [translated_attachment "flag-fr" (LangCode "fr")
                                   (JStr "Bonjour") (JStr "Hello")])])
                   (JStr "bot_message") [] _ eq_refl eq_refl eq_refl)).
  constructor; [| constructor]. exists JUndef. split; [reflexivity | discriminate].
Defined.

(** ** Errors that can leave the handler *)

Section Escapes.

Variable E : Env.

Lemma escapes_bind {A B : Type} (m : M A) (k : A -> M B) :
  (forall e, outcome m = inl e -> escapes E e) ->
  (forall a e, outcome (k a) = inl e -> escapes E e) ->
  forall e, outcome (bind m k) = inl e -> escapes E e.
Proof.
  intros Hm Hk e. destruct (outcome m) as [e' | a] eqn:Ho.
  - rewrite (bind_throws m k e' Ho). intros [= <-]. apply Hm. reflexivity.
  - rewrite (bind_returns m k a Ho). apply Hk.
Qed.

Lemma escapes_get_prop (v : jsval) (p : string) (e : error) :
  outcome (lift (get_prop v p)) = inl e -> escapes E e.
Proof. intros H. left. eapply get_prop_error, H. Qed.

Lemma escapes_resolve (reaction : jsval) (e : error) :
  outcome (lift (resolve E reaction)) = inl e -> escapes E e.
Proof.
  cbn [lift outcome snd]. intros H. left.
  destruct reaction; try (injection H as <-; reflexivity).
  unfold resolve in H. destruct (match_flag s) eqn:Hm.
  - destruct (match_token_after_flag s Hm) as [token Ht]. rewrite Ht in H.
    cbn [rbind] in H.
    destruct (langcode_get (langcode E) token) as [lang |]; [| discriminate].
    destruct (lang_truthy lang); discriminate.
  - destruct (bool_decide (s ∈ dom (langcode E))); cbn [rbind] in H; [| discriminate].
    destruct (langcode_get (langcode E) s) as [lang |]; [| discriminate].
    destruct (lang_truthy lang); discriminate.
Qed.

Lemma escapes_getMessage (channel ts : jsval) (e : error) :
  outcome (getMessage E channel ts) = inl e -> escapes E e.
Proof.
  unfold getMessage, axios_post_replies. rewrite bind_call.
  destruct (conversations_replies E _) as [e0 | result] eqn:Hc.
  - intros [= <-]. right. eauto.
  - destruct (get_prop result "data") as [e0 | data]; rewrite bind_lift;
      [discriminate |].
    destruct (get_prop data "messages"); discriminate.
Qed.

Lemma escapes_postTranslatedMessage (messages : jsval) (lang : lang_value)
    (channel : jsval) (emoji : string) (e : error) :
  outcome (postTranslatedMessage E messages lang channel emoji) = inl e -> escapes E e.
Proof.
  destruct (get_index0 messages) as [e0 | message] eqn:Hm.
  - unfold postTranslatedMessage. rewrite Hm, bind_lift. intros [= <-].
    left. eapply get_index0_error, Hm.
  - rewrite (postTranslatedMessage_run E messages lang channel emoji message Hm).
    cbv zeta.
    destruct (outcome (translate_first E message lang)); [discriminate |].
    destruct (isAlreadyPosted messages j); [discriminate |].
    destruct (truthy j0); discriminate.
Qed.

Lemma escapes_events (req : Request) (e : error) :
  outcome (events E req) = inl e -> escapes E e.
Proof.
  revert e. unfold events, fetch_and_post, sleep, log.
  repeat
    match goal with
    | |- forall e, outcome (emit _) = inl e -> _ => discriminate
    | |- forall e, outcome (ret _) = inl e -> _ => discriminate
    | |- forall e, outcome (if ?b then _ else _) = inl e -> _ => destruct b
    | |- forall e, outcome (match ?x with _ => _ end) = inl e -> _ => destruct x
    | |- forall e, outcome (lift (get_prop _ _)) = inl e -> _ =>
        intros ?; apply escapes_get_prop
    | |- forall e, outcome (lift (resolve _ _)) = inl e -> _ =>
        intros ?; apply escapes_resolve
    | |- forall e, outcome (getMessage _ _ _) = inl e -> _ =>
        intros ?; apply escapes_getMessage
    | |- forall e, outcome (postTranslatedMessage _ _ _ _ _) = inl e -> _ =>
        intros ?; apply escapes_postTranslatedMessage
    | |- forall e, outcome (bind _ _) = inl e -> _ =>
        apply escapes_bind; [| intros ?]
    end.
Qed.

End Escapes.

(** X16. The handler ends in an error in two ways only: a TypeError (a
    field read on a null or undefined value, or a reaction that is not a
    string), or the rejection of the thread fetch.  The errors of the
    translation client and of the post never leave it. *)
Theorem handler_escaping_errors (E : Env) (req : Request) (e : error) :
  outcome (module_exports E req) = inl e ->
  e = TypeError \/ exists args, conversations_replies E args = inl e.
Proof.
  revert e. unfold module_exports, log.
  repeat
    match goal with
    | |- forall e, outcome (emit _) = inl e -> _ => discriminate
    | |- forall e, outcome (ret _) = inl e -> _ => discriminate
    | |- forall e, outcome (if ?b then _ else _) = inl e -> _ => destruct b
    | |- forall e, outcome (lift (get_prop _ _)) = inl e -> _ =>
        intros ?; apply escapes_get_prop
    | |- forall e, outcome (events _ _) = inl e -> _ =>
        intros ?; apply escapes_events
    | |- forall e, outcome (bind _ _) = inl e -> _ =>
        apply (escapes_bind E); [| intros ?]
    end.
Qed.

Lemma handler_escaping_errors_witness :
  let E := Sample.world (inl (Rejected (JStr "ECONNRESET")))
                        (inr (Sample.translated "Konnichiwa")) in
  outcome (module_exports E (Sample.callback "flag-jp"))
  = inl (Rejected (JStr "ECONNRESET")) /\
  (Rejected (JStr "ECONNRESET") = TypeError \/
   exists args, conversations_replies E args = inl (Rejected (JStr "ECONNRESET"))).
Proof.
  assert (H : outcome (module_exports
                         (Sample.world (inl (Rejected (JStr "ECONNRESET")))
                                       (inr (Sample.translated "Konnichiwa")))
                         (Sample.callback "flag-jp"))
              = inl (Rejected (JStr "ECONNRESET"))) by (vm_compute; reflexivity).
  split; [exact H |].
  exact (handler_escaping_errors _ _ _ H).
Defined.

(** ** The calls and the event they serve *)

Section Provenance.

Variable E : Env.

Lemma In_trace_getMessage (channel ts : jsval) (e : event) :
  In e (trace (getMessage E channel ts)) ->
  e = EFetch {| f_token := SLACK_ACCESS_TOKEN E; f_channel := channel; f_ts := ts;
                f_limit := 1; f_inclusive := true |}
  \/ exists err, e = ELog (LogErr err).
Proof.
  unfold getMessage, axios_post_replies. rewrite bind_call.
  destruct (conversations_replies E _) as [e0 | result].
  { intros [<- | []]. left. reflexivity. }
  destruct (get_prop result "data") as [e0 | data]; rewrite bind_lift.
  { intros [<- | [<- | []]]; eauto. }
  destruct (get_prop data "messages"); cbn [trace fst].
  - intros [<- | [<- | []]]; eauto.
  - intros [<- | []]. left. reflexivity.
Qed.

Lemma In_trace_translate_first (message : jsval) (lang : lang_value) (e : event) :
  In e (trace (translate_first E message lang)) ->
  (exists path text,
      get_prop message "text" = inr text /\
      e = ETranslate (request_for path text lang))
  \/ exists response, e = ELog (LogTransResponse response).
Proof.
  destruct (locationPath E (GOOGLE_PROJECT_ID E) (GOOGLE_LOCATION E))
    as [e0 | path] eqn:Hpath.
  { destruct (translate_first_early E message lang) as [e' ->]; [| intros []].
    intros path Hp. rewrite Hpath in Hp. discriminate. }
  destruct (get_prop message "text") as [e0 | text] eqn:Htext.
  { destruct (translate_first_early E message lang) as [e' ->]; [| intros []].
    intros _ _. rewrite Htext. eauto. }
  rewrite (translate_first_run E message lang path text Hpath Htext).
  destruct (translateText E (request_for path text lang)) as [e0 | reply];
    [| destruct (destructure_first reply) as [e0 | response]]; cbn [trace fst].
  - intros [<- | []]. left. eauto.
  - intros [<- | []]. left. eauto.
  - intros [<- | [<- | []]]; [left | right]; eauto.
Qed.

Lemma In_trace_postTranslatedMessage (messages : jsval) (lang : lang_value)
    (channel : jsval) (emoji : string) (e : event) :
  In e (trace (postTranslatedMessage E messages lang channel emoji)) ->
  exists message,
    get_index0 messages = inr message /\
    (In e (trace (translate_first E message lang))
     \/ (exists translation,
            In e (trace (postMessage E message translation lang channel emoji)))
     \/ exists err, e = ELog (LogErr err)).
Proof.
  destruct (get_index0 messages) as [e0 | message] eqn:Hm.
  { unfold postTranslatedMessage. rewrite Hm, bind_lift. intros []. }
  rewrite (postTranslatedMessage_run E messages lang channel emoji message Hm).
  cbv zeta. intros Hin. exists message. split; [reflexivity |].
  destruct (outcome (translate_first E message lang)) as [e0 | translation].
  { cbn [trace fst] in Hin. apply in_app_or in Hin as [Hin | [<- | []]]; eauto. }
  destruct (isAlreadyPosted messages translation) as [e0 | posted].
  { cbn [trace fst] in Hin. apply in_app_or in Hin as [Hin | [<- | []]]; eauto. }
  destruct (truthy posted); [left; exact Hin |].
  cbn [trace fst] in Hin. apply in_app_or in Hin as [Hin | Hin]; [left; exact Hin |].
  apply in_app_or in Hin as [Hin | Hin]; [right; left; eauto |].
  destruct (outcome (postMessage E message translation lang channel emoji));
    [destruct Hin as [<- | []]; eauto | destruct Hin].
Qed.

Lemma In_trace_events (req : Request) (ev item : jsval) (emoji : string) (lang : lang_value)
    (channel ts : jsval) (e : event) :
  get_prop (body req) "event" = inr ev ->
  get_prop ev "type" = inr (JStr "reaction_added") ->
  get_prop ev "reaction" = inr (JStr emoji) ->
  get_prop ev "item" = inr item ->
  get_prop item "type" = inr (JStr "message") ->
  resolve E (JStr emoji) = inr (Some lang) ->
  get_prop item "channel" = inr channel ->
  get_prop item "ts" = inr ts ->
  In e (trace (events E req)) ->
  (exists l, e = ELog l) \/ e = ESleep (random E * 5000)%Q
  \/ In e (trace (getMessage E channel ts))
  \/ exists messages,
       outcome (getMessage E channel ts) = inr messages /\
       In e (trace (postTranslatedMessage E messages lang channel emoji)).
Proof.
  intros Hev Hty Hre Hit Hity Hres Hch Hts.
  rewrite (events_run E req ev item emoji lang Hev Hty Hre Hit Hity Hres).
  rewrite (fetch_and_post_run E item lang emoji channel ts Hch Hts). cbv zeta.
  cbn [trace fst app].
  intros [<- | [<- | [<- | [<- | Hin]]]]; eauto.
  destruct (outcome (getMessage E channel ts)) as [e0 | messages] eqn:Hgm;
    cbn [trace fst] in Hin; [auto |].
  apply in_app_or in Hin as [Hin | [<- | Hin]]; eauto 6.
Qed.

End Provenance.

(** X17. For an event that passed the checks, the calls carry the data
    of that event: the fetch asks for the item's channel and timestamp
    (one message, inclusive); a translation request is plain text, targets
    the resolved language and holds the text of the first fetched message
    and nothing else; a post goes to the item's channel, under the fixed
    bot name and not as the user. *)
Theorem calls_carry_the_event (E : Env) (req : Request) (ev item : jsval)
    (emoji : string) (lang : lang_value) (channel ts : jsval) :
  get_prop (body req) "event" = inr ev ->
  get_prop ev "type" = inr (JStr "reaction_added") ->
  get_prop ev "reaction" = inr (JStr emoji) ->
  get_prop ev "item" = inr item ->
  get_prop item "type" = inr (JStr "message") ->
  resolve E (JStr emoji) = inr (Some lang) ->
  get_prop item "channel" = inr channel ->
  get_prop item "ts" = inr ts ->
  (forall f, In (EFetch f) (trace (events E req)) ->
             f = {| f_token := SLACK_ACCESS_TOKEN E; f_channel := channel; f_ts := ts;
                    f_limit := 1; f_inclusive := true |}) /\
  (forall r, In (ETranslate r) (trace (events E req)) ->
             targetLanguageCode r = lang /\ mimeType r = "text/plain" /\
             exists messages message text,
               outcome (getMessage E channel ts) = inr messages /\
               get_index0 messages = inr message /\
               get_prop message "text" = inr text /\
               contents r = [text]) /\
  (forall p, In (EPost p) (trace (events E req)) ->
             p_channel p = channel /\ p_token p = SLACK_ACCESS_TOKEN E /\
             p_as_user p = false /\ p_username p = "Reacjilator Bot").
Proof.
  intros Hev Hty Hre Hit Hity Hres Hch Hts.
  pose proof (fun e => In_trace_events E req ev item emoji lang channel ts e
                         Hev Hty Hre Hit Hity Hres Hch Hts) as Hin.
  split; [| split].
  - intros f Hf. destruct (Hin _ Hf) as [[l [=]] | [[=] | [Hg | (ms & _ & Hp)]]].
    + destruct (In_trace_getMessage E channel ts _ Hg) as [[= ->] | [err [=]]].
      reflexivity.
    + destruct (In_trace_postTranslatedMessage E ms lang channel emoji _ Hp)
        as (message & _ & [Ht | [[translation Hpm] | [err [=]]]]).
      * destruct (In_trace_translate_first E message lang _ Ht)
          as [(path & text & _ & [=]) | [response [=]]].
      * destruct (postMessage_counts E message translation lang channel emoji)
          as (_ & _ & Hc).
        destruct (count_zero_not_in is_fetch _ (EFetch f) Hc eq_refl Hpm).
  - intros r Hr. destruct (Hin _ Hr) as [[l [=]] | [[=] | [Hg | (ms & Hgm & Hp)]]].
    + destruct (In_trace_getMessage E channel ts _ Hg) as [[=] | [err [=]]].
    + destruct (In_trace_postTranslatedMessage E ms lang channel emoji _ Hp)
        as (message & Hm & [Ht | [[translation Hpm] | [err [=]]]]).
      * destruct (In_trace_translate_first E message lang _ Ht)
          as [(path & text & Htext & [= ->]) | [response [=]]].
        split; [reflexivity |]. split; [reflexivity |].
        exists ms, message, text. repeat (split; [assumption |]). reflexivity.
      * destruct (postMessage_counts E message translation lang channel emoji)
          as (_ & Hc & _).
        destruct (count_zero_not_in is_translate _ (ETranslate r) Hc eq_refl Hpm).
  - intros p Hp. destruct (Hin _ Hp) as [[l [=]] | [[=] | [Hg | (ms & Hgm & Hpt)]]].
    + destruct (In_trace_getMessage E channel ts _ Hg) as [[=] | [err [=]]].
    + destruct (post_in_postTranslatedMessage E ms lang channel emoji p Hpt)
        as (message & translation & posted & thread_ts & ts' & text & _ & _ & _ & _
            & _ & _ & _ & ->).
      repeat split.
Qed.

Lemma calls_carry_the_event_witness :
  let E := Sample.world (inr (Sample.replies (JArr [Sample.hello])))
                        (inr (Sample.translated "Konnichiwa")) in
  resolve E (JStr "flag-jp") = inr (Some (LangCode "ja")) /\
  forall p, In (EPost p) (trace (events E (Sample.callback "flag-jp"))) ->
            p_channel p = JStr "C1" /\ p_token p = SLACK_ACCESS_TOKEN E /\
            p_as_user p = false /\ p_username p = "Reacjilator Bot".
Proof.
  assert (Hres : resolve (Sample.world (inr (Sample.replies (JArr [Sample.hello])))
                                       (inr (Sample.translated "Konnichiwa")))
                         (JStr "flag-jp") = inr (Some (LangCode "ja"))) by (vm_compute; reflexivity).
  split; [exact Hres |].
  exact (proj2 (proj2 (calls_carry_the_event
                         (Sample.world (inr (Sample.replies (JArr [Sample.hello])))
                                       (inr (Sample.translated "Konnichiwa")))
                         (Sample.callback "flag-jp")
                         (Sample.reaction_event "reaction_added" "flag-jp" "message")
                         (JObj [("type", JStr "message"); ("channel", JStr "C1");
                                ("ts", JStr "100.1")])
                         "flag-jp" (LangCode "ja") (JStr "C1") (JStr "100.1")
                         eq_refl eq_refl eq_refl eq_refl eq_refl Hres eq_refl eq_refl))).
Defined.

(** ** An emoji that resolves to nothing *)

(** X19. An emoji name that is no key of the language table, and whose
    token, when the name has [flag-] in it, is neither a key of the table
    nor the name of a property of [Object.prototype], resolves to no
    language; the dispatcher then makes no remote call (no thread fetch,
    no translation request, no post) and no delay. *)
Theorem unresolved_emoji_is_silent (E : Env) (req : Request) (ev : jsval) (r : string) :
  get_prop (body req) "event" = inr ev ->
  get_prop ev "reaction" = inr (JStr r) ->
  langcode E !! r = None ->
  (forall token, match_flag r = true -> match_token false r = Some token ->
                 langcode E !! token = None /\ is_inherited token = false) ->
  resolve E (JStr r) = inr None /\
  count is_network (trace (events E req)) = 0 /\
  count is_sleep (trace (events E req)) = 0.
Proof.
  intros Hev Hre Hdirect Hflag.
  assert (Hnone : resolve E (JStr r) = inr None).
  { apply resolve_absent; [exact Hdirect |]. intros token Hm Ht.
    destruct (Hflag token Hm Ht) as [Hk Hi]. apply langcode_get_absent; assumption. }
  split; [exact Hnone |].
  destruct (events_cases E req) as [Hq | (ev' & item & emoji & lang & H1 & _ & H3 & _ & _ & H6 & _)].
  - split; apply count_zero_Forall; eapply Forall_impl; try exact Hq;
      intros e [Hs Hn]; assumption.
  - rewrite Hev in H1. injection H1 as <-.
    rewrite Hre in H3. injection H3 as <-.
    rewrite Hnone in H6. discriminate.
Qed.

Lemma unresolved_emoji_is_silent_witness :
  let E := Sample.world (inl TypeError) (inl TypeError) in
  resolve E (JStr "flag-zz") = inr None /\
  count is_network (trace (events E (Sample.callback "flag-zz"))) = 0 /\
  count is_sleep (trace (events E (Sample.callback "flag-zz"))) = 0.
Proof.
  apply (unresolved_emoji_is_silent (Sample.world (inl TypeError) (inl TypeError))
           (Sample.callback "flag-zz")
           (Sample.reaction_event "reaction_added" "flag-zz" "message") "flag-zz").
  - reflexivity.
  - reflexivity.
  - vm_compute. reflexivity.
  - intros token _ Ht. vm_compute in Ht. injection Ht as <-.
    split; vm_compute; reflexivity.
Defined.
